(** * pkg/gcp/gcs: the bucket-copy facade of the release tooling

    A shallow embedding of [pkg/gcp/gcs/gcs.go] and the properties of its
    path helpers and copy entry points.

    Go strings are byte sequences: they are modelled by [string], whose
    characters are the 8-bit [ascii] values.  Go's [error] interface is
    modelled by an inductive type of error values, with [option error] for
    the possibly-nil interface value.  A pointer that may be nil is an
    [option]; dereferencing [None] is Go's run-time panic. *)

From Stdlib Require Import Bool Arith List Ascii String Lia.
Import ListNotations.

Open Scope list_scope.
Open Scope string_scope.

(** ** Package [strings] of Go's standard library *)

Module strings.

(** [strings.HasPrefix(s, prefix)]:
    [len(s) >= len(prefix) && s[:len(prefix)] == prefix]. *)
Fixpoint HasPrefix (s prefix : string) {struct prefix} : bool :=
  match prefix with
  | EmptyString => true
  | String c prefix' =>
      match s with
      | EmptyString => false
      | String d s' => Ascii.eqb d c && HasPrefix s' prefix'
      end
  end.

(** The slice expression [s[n:]], for [n <= len(s)]. *)
Fixpoint slice_from (n : nat) (s : string) : string :=
  match n with
  | O => s
  | S n' => match s with
            | EmptyString => EmptyString
            | String _ s' => slice_from n' s'
            end
  end.

(** [strings.TrimPrefix(s, prefix)]: [s] without the leading [prefix]
    when it has it, [s] itself otherwise.  One copy is removed. *)
Definition TrimPrefix (s prefix : string) : string :=
  if HasPrefix s prefix then slice_from (String.length prefix) s else s.

(** [strings.Join(elems, sep)]. *)
Fixpoint Join (elems : list string) (sep : string) : string :=
  match elems with
  | [] => EmptyString
  | [e] => e
  | e :: rest => e ++ sep ++ Join rest sep
  end.

End strings.

(** ** Package-level variables of [gcs.go] *)

Definition GcsPrefix : string := "gs://".
Definition concurrentFlag : string := "-m".
Definition recursiveFlag : string := "-r".
Definition noClobberFlag : string := "-n".

(** ** [NormalizeGCSPath] *)

Definition NormalizeGCSPath (gcsPath : string) : string :=
  let gcsPath := strings.TrimPrefix gcsPath GcsPrefix in
  let gcsPath := GcsPrefix ++ gcsPath in
  gcsPath.

(** The number of copies of [prefix] that [s] starts with, one after the
    other.  Each copy found shortens [s] by [len(prefix)] bytes, so for a
    non-empty [prefix] the count is below [S (length s)], which bounds the
    recursion. *)
Fixpoint leading_copies_upto (fuel : nat) (prefix s : string) : nat :=
  match fuel with
  | O => O
  | S fuel' =>
      if strings.HasPrefix s prefix
      then S (leading_copies_upto fuel' prefix
                (strings.slice_from (String.length prefix) s))
      else O
  end.

Definition leading_copies (prefix s : string) : nat :=
  leading_copies_upto (S (String.length s)) prefix s.

(** ** Package [path/filepath] of Go's standard library (Unix)

    [getPath] builds its result with [filepath.Join], which joins the
    non-empty elements with the separator and returns the result Cleaned.
    [Clean] follows the library's loop: [path] is read from index [r]
    (here: the part of the string not yet read), [out] is the buffer of
    the [out.w] bytes written so far (here: a list, latest byte first),
    [dotdot] is the index in the buffer where [..] must stop.  On Unix
    there is no volume name and [FromSlash] is the identity. *)

Module filepath.

Definition Separator : ascii := "/"%char.

(** [os.IsPathSeparator] on Unix. *)
Definition IsPathSeparator (c : ascii) : bool := Ascii.eqb c Separator.

Definition is_dot (c : ascii) : bool := Ascii.eqb c "."%char.

(** [r+1 == n || os.IsPathSeparator(path[r+1])], on the bytes after
    [path[r]]. *)
Definition element_ends (rest : string) : bool :=
  match rest with
  | EmptyString => true
  | String d _ => IsPathSeparator d
  end.

(** The loop
    [for out.w > dotdot && !os.IsPathSeparator(out.index(out.w)) { out.w-- }]
    that follows a first [out.w--]: [out.index(out.w)] is the byte given
    up last. *)
Fixpoint backtrack (dotdot : nat) (given_up : ascii) (out : list ascii)
  : list ascii :=
  match out with
  | [] => []
  | c :: out' =>
      if (dotdot <? List.length out)%nat && negb (IsPathSeparator given_up)
      then backtrack dotdot c out'
      else out
  end.

(** [out.w--] and the loop after it, when [out.w > dotdot]. *)
Definition retreat (dotdot : nat) (out : list ascii) : list ascii :=
  match out with
  | [] => []
  | given_up :: out' => backtrack dotdot given_up out'
  end.

(** [for ; r < n && !os.IsPathSeparator(path[r]); r++ { out.append(path[r]) }]:
    the part of the path left to read and the buffer. *)
Fixpoint copy_element (path : string) (out : list ascii)
  : string * list ascii :=
  match path with
  | EmptyString => (path, out)
  | String c rest =>
      if IsPathSeparator c then (path, out)
      else copy_element rest (c :: out)
  end.

(** The loop [for r < n { switch ... }] of [Clean].  Every turn reads at
    least one byte, so [String.length path] turns are enough
    ([clean_loop_enough] below). *)
Fixpoint clean_loop (fuel : nat) (rooted : bool) (path : string)
    (out : list ascii) (dotdot : nat) : list ascii :=
  match fuel with
  | O => out
  | S fuel' =>
      match path with
      | EmptyString => out
      | String c rest =>
          if IsPathSeparator c then
            (* empty path element *)
            clean_loop fuel' rooted rest out dotdot
          else if is_dot c && element_ends rest then
            (* . element *)
            clean_loop fuel' rooted rest out dotdot
          else if is_dot c &&
                  match rest with
                  | EmptyString => false
                  | String d rest2 => is_dot d && element_ends rest2
                  end then
            (* .. element: remove to last separator *)
            let rest2 := strings.slice_from 1 rest in
            if (dotdot <? List.length out)%nat then
              (* can backtrack *)
              clean_loop fuel' rooted rest2 (retreat dotdot out) dotdot
            else if negb rooted then
              (* cannot backtrack, but not rooted, so append .. element *)
              let out1 :=
                if (0 <? List.length out)%nat then Separator :: out else out in
              let out2 := "."%char :: "."%char :: out1 in
              clean_loop fuel' rooted rest2 out2 (List.length out2)
            else clean_loop fuel' rooted rest2 out dotdot
          else
            (* real path element: add slash if needed, copy element *)
            let out1 :=
              if (rooted && negb (List.length out =? 1)%nat)
                 || (negb rooted && negb (List.length out =? 0)%nat)
              then Separator :: out else out in
            let '(rest', out2) := copy_element path out1 in
            clean_loop fuel' rooted rest' out2 dotdot
      end
  end.

(** [filepath.Clean(path)]. *)
Definition Clean (path : string) : string :=
  match path with
  | EmptyString => "."
  | String c0 tail =>
      let rooted := IsPathSeparator c0 in
      let out := if rooted then [Separator] else [] in
      let unread := if rooted then tail else path in
      let dotdot := if rooted then 1 else 0 in
      let out := clean_loop (String.length path) rooted unread out dotdot in
      (* Turn empty string into "." *)
      let out := if (List.length out =? 0)%nat then ["."%char] else out in
      string_of_list_ascii (List.rev out)
  end.

(** [filepath.Join(elem...)]: the elements from the first non-empty one
    on, joined by the separator and Cleaned; [""] if all are empty. *)
Fixpoint Join (elem : list string) : string :=
  match elem with
  | [] => ""
  | e :: rest =>
      if (e =? "")%string then Join rest
      else Clean (strings.Join elem (String Separator EmptyString))
  end.

End filepath.

(** ** Errors

    [errors.New] and [errors.Wrap] of [github.com/pkg/errors]; [Foreign]
    stands for an error value made outside this package (by [os.Stat] or
    by the external tool). *)

Inductive error : Type :=
| New (message : string)
| Wrapped (cause : error) (message : string)
| Foreign (description : string).

Module errors.

(** [errors.Wrap(err, message)]: nil if [err] is nil. *)
Definition Wrap (err : option error) (message : string) : option error :=
  match err with
  | None => None
  | Some e => Some (Wrapped e message)
  end.

End errors.

(** ** Effects

    What a call does to the outside is recorded as a trace of events, in
    the order they happen: a line handed to the logger, a call of
    [os.Stat], a run of the external tool through [gcp.GSUtil]. *)

Inductive level : Type := DebugLevel | InfoLevel.

Inductive event : Type :=
| Logged (lvl : level) (line : string)
| Statted (name : string)
| Ran (args : list string).

Definition trace : Type := list event.

(** A call either returns a value or panics (a nil pointer dereference is
    the only panic this package can raise itself). *)
Inductive outcome (A : Type) : Type :=
| Returned (a : A)
| Panicked.

Arguments Returned {A} a.
Arguments Panicked {A}.

Definition Go (A : Type) : Type := trace -> outcome A * trace.

Definition ret {A : Type} (a : A) : Go A := fun tr => (Returned a, tr).

Definition bind {A B : Type} (m : Go A) (k : A -> Go B) : Go B :=
  fun tr =>
    match m tr with
    | (Returned a, tr') => k a tr'
    | (Panicked, tr') => (Panicked, tr')
    end.

Notation "x <- m ;; k" := (bind m (fun x => k))
  (at level 100, m at next level, right associativity).
Notation "m ;;; k" := (bind m (fun _ => k))
  (at level 100, right associativity).

Definition emit (e : event) : Go unit := fun tr => (Returned tt, (tr ++ [e])%list).

(** [*p] for a pointer [p]. *)
Definition deref {A : Type} (p : option A) : Go A :=
  match p with
  | Some a => ret a
  | None => fun tr => (Panicked, tr)
  end.

Definition logrus_Debug (line : string) : Go unit := emit (Logged DebugLevel line).
Definition logrus_Info (line : string) : Go unit := emit (Logged InfoLevel line).

(** The argument lists the external tool was run with, oldest first. *)
Fixpoint invocations (tr : trace) : list (list string) :=
  match tr with
  | [] => []
  | Ran args :: tr' => args :: invocations tr'
  | _ :: tr' => invocations tr'
  end.

Definition returned {A : Type} (r : outcome A * trace) : bool :=
  match fst r with
  | Returned _ => true
  | Panicked => false
  end.

(** ** [Options] *)

Record Options : Type := mkOptions {
  Concurrent : option bool;
  Recursive : option bool;
  NoClobber : option bool;
  AllowMissing : option bool
}.

Definition DefaultGCSCopyOptions : option Options :=
  Some (mkOptions (Some true) (Some true) (Some true) (Some true)).

(** ** Path construction *)

Definition getPath (bucket buildType gcsSuffix version pathType : string)
    (fast : bool) : Go string :=
  let gcsPath := bucket in
  let gcsPath := filepath.Join [gcsPath; buildType] in
  let gcsPath :=
    if negb (gcsSuffix =? "")%string then gcsPath ++ "-" ++ gcsSuffix
    else gcsPath in
  let gcsPath :=
    if (pathType =? "release")%string then
      let gcsPath :=
        if fast then filepath.Join [gcsPath; "fast"] else gcsPath in
      let gcsPath :=
        if negb (version =? "")%string then filepath.Join [gcsPath; version]
        else gcsPath in
      gcsPath
    else gcsPath in
  logrus_Info ("GCS path is " ++ gcsPath) ;;;
  ret gcsPath.

Definition GetReleasePath (bucket buildType gcsSuffix version : string)
    (fast : bool) : Go string :=
  getPath bucket buildType gcsSuffix version "release" fast.

Definition GetMarkerPath (bucket buildType gcsSuffix : string) : Go string :=
  getPath bucket buildType gcsSuffix "" "marker" false.

(** The value a path builder returns, whatever was logged before. *)
Definition result_of {A : Type} (m : Go A) (tr : trace) : outcome A := fst (m tr).

(** ** Copy operations, sync and existence check

    The package calls [os.Stat] and [gcp.GSUtil] (of [pkg/gcp], which runs
    the external tool and returns its failure as an error).  What they
    answer is not decided here: it is a parameter, and it may depend on
    everything that happened before the call. *)

Record Env : Type := mkEnv {
  stat_answer : trace -> string -> option error;
  gsutil_answer : trace -> list string -> option error
}.

Section Facade.

Variable env : Env.

(** [_, err := os.Stat(name)]. *)
Definition os_Stat (name : string) : Go (option error) :=
  fun tr => (Returned (stat_answer env tr name), (tr ++ [Statted name])%list).

(** [gcp.GSUtil(args...)]. *)
Definition gcp_GSUtil (args : list string) : Go (option error) :=
  fun tr => (Returned (gsutil_answer env tr args), (tr ++ [Ran args])%list).

Definition bucketCopy (src dst : string) (opts : option Options)
  : Go (option error) :=
  let args := [] in
  o <- deref opts ;;
  concurrent <- deref (Concurrent o) ;;
  args <- (if concurrent
           then logrus_Debug "Setting GCS copy to run concurrently" ;;;
                ret (args ++ [concurrentFlag])%list
           else ret args) ;;
  let args := (args ++ ["cp"])%list in
  o <- deref opts ;;
  recursive <- deref (Recursive o) ;;
  args <- (if recursive
           then logrus_Debug "Setting GCS copy to run recursively" ;;;
                ret (args ++ [recursiveFlag])%list
           else ret args) ;;
  o <- deref opts ;;
  noClobber <- deref (NoClobber o) ;;
  args <- (if noClobber
           then logrus_Debug "Setting GCS copy to not clobber existing files" ;;;
                ret (args ++ [noClobberFlag])%list
           else ret args) ;;
  let args := (args ++ [src; dst])%list in
  err <- gcp_GSUtil args ;;
  match err with
  | Some e => ret (errors.Wrap (Some e) "gcs copy")
  | None => ret None
  end.

Definition CopyToGCS (src gcsPath : string) (opts : option Options)
  : Go (option error) :=
  logrus_Info ("Copying " ++ src ++ " to GCS (" ++ gcsPath ++ ")") ;;;
  let gcsPath := NormalizeGCSPath gcsPath in
  err <- os_Stat src ;;
  match err with
  | Some _ =>
      logrus_Info "Unable to get local source directory info" ;;;
      o <- deref opts ;;
      allowMissing <- deref (AllowMissing o) ;;
      if allowMissing then
        logrus_Info ("Source directory (" ++ src
                     ++ ") does not exist. Skipping GCS upload.") ;;;
        ret None
      else ret (Some (New "source directory does not exist"))
  | None => bucketCopy src gcsPath opts
  end.

Definition CopyToLocal (gcsPath dst : string) (opts : option Options)
  : Go (option error) :=
  logrus_Info ("Copying GCS (" ++ gcsPath ++ ") to " ++ dst) ;;;
  let gcsPath := NormalizeGCSPath gcsPath in
  bucketCopy gcsPath dst opts.

Definition CopyBucketToBucket (src dst : string) (opts : option Options)
  : Go (option error) :=
  logrus_Info ("Copying " ++ src ++ " to " ++ dst) ;;;
  bucketCopy (NormalizeGCSPath src) (NormalizeGCSPath dst) opts.

Definition RsyncRecursive (src dst : string) : Go (option error) :=
  err <- gcp_GSUtil ["-m"; "rsync"; "-r"; src; dst] ;;
  ret (errors.Wrap err "running gsutil rsync").

Definition PathExists (gcsPath : string) : Go (bool * option error) :=
  err <- gcp_GSUtil ["ls"; gcsPath] ;;
  match err with
  | Some e => ret (false, Some e)
  | None =>
      logrus_Info ("Found " ++ gcsPath) ;;;
      ret (true, None)
  end.

End Facade.

(** The marker path as the specification words it: bucket and build type
    joined as path segments, the suffix, when there is one, hyphenated onto
    the build-type segment, and nothing after it. *)
Definition marker_path_by_spec (bucket buildType suffix : string) : string :=
  let joined := filepath.Join [bucket; buildType] in
  if (suffix =? "")%string then joined else joined ++ "-" ++ suffix.

(** What the release path adds to it: a [fast] segment when the flag is
    set, then the version when there is one. *)
Definition with_fast (path : string) (fast : bool) : string :=
  if fast then filepath.Join [path; "fast"] else path.

Definition with_version (path version : string) : string :=
  if (version =? "")%string then path else filepath.Join [path; version].

(** A plain path element: not empty, not [.] or [..], and without a
    separator; [Clean] leaves paths made of such elements as they are. *)
Definition no_separator (s : string) : bool :=
  forallb (fun c => negb (filepath.IsPathSeparator c)) (list_ascii_of_string s).

Definition plain_element (e : string) : bool :=
  negb (e =? "")%string && negb (e =? ".")%string && negb (e =? "..")%string
  && no_separator e.

(** The release path as the specification words its segment order:
    [<bucket>/<buildType>[-<suffix>]/[fast/][<version>]]. *)
Definition release_segments (bucket buildType suffix version : string)
    (fast : bool) : list string :=
  let second :=
    if (suffix =? "")%string then buildType else buildType ++ "-" ++ suffix in
  ([bucket; second]
   ++ (if fast then ["fast"] else [])
   ++ (if (version =? "")%string then [] else [version]))%list.

(** The invariant of the buffer of [Clean].  No two separators are written
    next to each other; the byte written last is a separator only in the
    buffer that holds the root alone; and the same holds of the first
    [dotdot] bytes, where [..] stops. *)
Definition NoDoubleSeparator (l : list ascii) : Prop :=
  forall (l1 : list ascii) (a b : ascii) (l2 : list ascii),
    l = (l1 ++ a :: b :: l2)%list ->
    filepath.IsPathSeparator a = false \/ filepath.IsPathSeparator b = false.

Definition head_ok (rooted : bool) (out : list ascii) : bool :=
  match out with
  | [] => true
  | c :: out' =>
      negb (filepath.IsPathSeparator c)
      || (rooted && match out' with [] => true | _ :: _ => false end)
  end.

Definition floor (dotdot : nat) (out : list ascii) : list ascii :=
  skipn (List.length out - dotdot) out.

Definition buffer_ok (rooted : bool) (dotdot : nat) (out : list ascii) : Prop :=
  NoDoubleSeparator out /\
  head_ok rooted out = true /\
  dotdot <= List.length out /\
  head_ok rooted (floor dotdot out) = true /\
  (rooted = true -> 1 <= dotdot).

(** Paths and their cleaned form, from the rules in the documentation of
    [filepath.Clean]: separators are not repeated, [.] elements and inner
    [..] elements go away with the element before them, [..] at the start
    of a rooted path goes away, and the empty path becomes [.]. *)
Definition clean_examples : list (string * string) :=
  [("", "."); ("abc", "abc"); ("abc/def", "abc/def"); (".", ".");
   ("..", ".."); ("../../abc", "../../abc"); ("/abc", "/abc"); ("/", "/");
   ("abc/", "abc"); ("abc//def//ghi", "abc/def/ghi"); ("//abc", "/abc");
   ("abc/./def", "abc/def"); ("abc/def/ghi/../jkl", "abc/def/jkl");
   ("abc/def/../..", "."); ("/abc/def/../..", "/");
   ("abc/def/../../..", ".."); ("/../abc", "/abc");
   ("abc/../../././../def", "../../def")].

(** The source of a local-to-remote copy does not exist: [os.Stat] fails
    on it whenever it is asked. *)
Definition missing (env : Env) (src : string) : Prop :=
  forall tr : trace, stat_answer env tr src <> None.

(** The argument list of the copy invocation as the specification words
    it: the concurrency flag if enabled, the sub-command, the recursive
    flag if enabled, the no-clobber flag if enabled, source, destination;
    a disabled option contributes no argument at all. *)
Definition flag_if (enabled : bool) (flag : string) : list string :=
  if enabled then [flag] else [].

Definition copy_arguments (concurrent recursive noClobber : bool)
    (src dst : string) : list string :=
  (flag_if concurrent "-m" ++ ["cp"] ++ flag_if recursive "-r"
   ++ flag_if noClobber "-n" ++ [src; dst])%list.

(** The debug lines [bucketCopy] writes before it runs the tool. *)
Definition copy_debug_lines (concurrent recursive noClobber : bool) : trace :=
  ((if concurrent
    then [Logged DebugLevel "Setting GCS copy to run concurrently"] else [])
   ++ (if recursive
       then [Logged DebugLevel "Setting GCS copy to run recursively"] else [])
   ++ (if noClobber
       then [Logged DebugLevel "Setting GCS copy to not clobber existing files"]
       else []))%list.

(** Environments for the concrete instances below: a file system holding
    nothing, with a tool that always succeeds, and one whose tool fails. *)
Definition empty_fs_env : Env :=
  mkEnv (fun _ _ => Some (Foreign "stat: no such file or directory"))
        (fun _ _ => None).

Definition failing_tool_env : Env :=
  mkEnv (fun _ _ => None)
        (fun _ _ => Some (Foreign "exit status 1")).

(** The names [os.Stat] was asked about, oldest first. *)
Fixpoint stats (tr : trace) : list string :=
  match tr with
  | [] => []
  | Statted name :: tr' => name :: stats tr'
  | _ :: tr' => stats tr'
  end.

(** What [bucketCopy] dereferences: the [Options] pointer and its three
    gsutil toggles.  [AllowMissing] is not among them. *)
Definition options_complete (opts : option Options) : bool :=
  match opts with
  | Some o =>
      match Concurrent o, Recursive o, NoClobber o with
      | Some _, Some _, Some _ => true
      | _, _, _ => false
      end
  | None => false
  end.

(** The runs of the tool one call of [bucketCopy] makes: one, with the
    arguments of the toggles, or none when a dereference panics first. *)
Definition copy_invocations (opts : option Options) (src dst : string)
  : list (list string) :=
  match opts with
  | Some o =>
      match Concurrent o, Recursive o, NoClobber o with
      | Some c, Some r, Some n => [copy_arguments c r n src dst]
      | _, _, _ => []
      end
  | None => []
  end.

(** The source of a local-to-remote copy exists: [os.Stat] succeeds on
    it whenever it is asked. *)
Definition present (env : Env) (src : string) : Prop :=
  forall tr : trace, stat_answer env tr src = None.

(** Whether the [AllowMissing] toggle can be read. *)
Definition allow_missing_set (opts : option Options) : bool :=
  match opts with
  | Some o => match AllowMissing o with Some _ => true | None => false end
  | None => false
  end.

(** The error values the copy operations hand back: nil, the
    missing-source error, or an error wrapped with "gcs copy". *)
Definition is_copy_error (err : option error) : bool :=
  match err with
  | None => true
  | Some (New message) => (message =? "source directory does not exist")%string
  | Some (Wrapped _ message) => (message =? "gcs copy")%string
  | Some (Foreign _) => false
  end.

Definition is_wrapped_copy_error (err : option error) : bool :=
  match err with
  | None => true
  | Some (Wrapped _ message) => (message =? "gcs copy")%string
  | Some _ => false
  end.

(** A property of the value a call returns; a panic returns none. *)
Definition when_returned {A : Type} (P : A -> bool) (r : outcome A * trace)
  : bool :=
  match fst r with
  | Returned a => P a
  | Panicked => true
  end.

(** ** Facts about prefixes *)

Section PrefixFacts.

Lemma HasPrefix_append (p s : string) : strings.HasPrefix (p ++ s) p = true.
Proof.
  induction p as [|c p IH]; simpl; [reflexivity|].
  now rewrite Ascii.eqb_refl, IH.
Qed.

Lemma slice_from_append (p s : string) :
  strings.slice_from (String.length p) (p ++ s) = s.
Proof.
  induction p as [|c p IH]; simpl; [reflexivity | exact IH].
Qed.

Lemma TrimPrefix_append (p s : string) : strings.TrimPrefix (p ++ s) p = s.
Proof.
  unfold strings.TrimPrefix.
  now rewrite HasPrefix_append, slice_from_append.
Qed.

Lemma HasPrefix_split (s p : string) :
  strings.HasPrefix s p = true ->
  s = p ++ strings.slice_from (String.length p) s.
Proof.
  revert s; induction p as [|c p IH]; intros s H; simpl in *.
  - reflexivity.
  - destruct s as [|d s]; [discriminate|].
    apply andb_true_iff in H as [Hc Hp].
    apply Ascii.eqb_eq in Hc; subst d.
    simpl. f_equal. now apply IH.
Qed.

Lemma string_append_assoc (a b c : string) : (a ++ b) ++ c = a ++ (b ++ c).
Proof.
  induction a as [|x a IH]; simpl; [reflexivity | now rewrite IH].
Qed.

Lemma string_append_nil_r (a : string) : a ++ "" = a.
Proof.
  induction a as [|x a IH]; simpl; [reflexivity | now rewrite IH].
Qed.

Lemma length_append (a b : string) :
  String.length (a ++ b) = String.length a + String.length b.
Proof.
  induction a as [|c a IH]; simpl; [reflexivity | now rewrite IH].
Qed.

Lemma slice_from_length (n : nat) (s : string) :
  String.length (strings.slice_from n s) = String.length s - n.
Proof.
  revert s; induction n as [|n IH]; intros s; simpl.
  - lia.
  - destruct s as [|c s]; simpl; [reflexivity | apply IH].
Qed.

Lemma HasPrefix_length (s p : string) :
  strings.HasPrefix s p = true -> String.length p <= String.length s.
Proof.
  intros H. apply HasPrefix_split in H.
  apply (f_equal String.length) in H.
  rewrite length_append in H. lia.
Qed.

(** Enough fuel: the count does not depend on the bound once the bound
    exceeds the length of the string. *)
Lemma leading_copies_upto_enough (p : string) :
  String.length p <> 0 ->
  forall (fuel1 fuel2 : nat) (s : string),
    String.length s < fuel1 -> String.length s < fuel2 ->
    leading_copies_upto fuel1 p s = leading_copies_upto fuel2 p s.
Proof.
  intros Hp fuel1.
  induction fuel1 as [|fuel1 IH]; intros fuel2 s H1 H2; [lia|].
  destruct fuel2 as [|fuel2]; [lia|].
  simpl. destruct (strings.HasPrefix s p) eqn:E; [|reflexivity].
  f_equal. apply HasPrefix_length in E.
  apply IH; rewrite slice_from_length; lia.
Qed.

Lemma leading_copies_step (p s : string) :
  String.length p <> 0 ->
  leading_copies p s =
    if strings.HasPrefix s p
    then S (leading_copies p (strings.slice_from (String.length p) s))
    else 0.
Proof.
  intros Hp. unfold leading_copies at 1.
  cbn [leading_copies_upto].
  destruct (strings.HasPrefix s p) eqn:E; [|reflexivity].
  f_equal. unfold leading_copies.
  apply HasPrefix_length in E.
  apply leading_copies_upto_enough; try assumption;
    rewrite ?slice_from_length; lia.
Qed.

Lemma leading_copies_append (p s : string) :
  String.length p <> 0 ->
  leading_copies p (p ++ s) = S (leading_copies p s).
Proof.
  intros Hp. rewrite leading_copies_step by assumption.
  now rewrite HasPrefix_append, slice_from_append.
Qed.

End PrefixFacts.

(** ** Properties of [NormalizeGCSPath] *)

Lemma NormalizeGCSPath_unfold (p : string) :
  NormalizeGCSPath p = GcsPrefix ++ strings.TrimPrefix p GcsPrefix.
Proof. reflexivity. Qed.

Lemma GcsPrefix_nonempty : String.length GcsPrefix <> 0.
Proof. discriminate. Qed.

Lemma leading_copies_normalized (p : string) :
  leading_copies GcsPrefix (NormalizeGCSPath p)
  = Nat.max 1 (leading_copies GcsPrefix p).
Proof.
  rewrite NormalizeGCSPath_unfold.
  rewrite leading_copies_append by apply GcsPrefix_nonempty.
  rewrite (leading_copies_step GcsPrefix p GcsPrefix_nonempty).
  unfold strings.TrimPrefix.
  destruct (strings.HasPrefix p GcsPrefix) eqn:E.
  - reflexivity.
  - rewrite (leading_copies_step GcsPrefix p GcsPrefix_nonempty), E.
    reflexivity.
Qed.

(** C8. Normalization is idempotent: normalizing a normalized path gives
    the same path again. *)
Theorem NormalizeGCSPath_idempotent (p : string) :
  NormalizeGCSPath (NormalizeGCSPath p) = NormalizeGCSPath p.
Proof.
  rewrite (NormalizeGCSPath_unfold (NormalizeGCSPath p)).
  rewrite (NormalizeGCSPath_unfold p) at 1.
  now rewrite TrimPrefix_append.
Qed.

(** C2, as the specification states it, does not hold: only one leading
    copy of the prefix is stripped, so a path that starts with the prefix
    twice still starts with it twice after normalization. *)
Lemma NormalizeGCSPath_keeps_second_prefix :
  NormalizeGCSPath "gs://gs://bucket" = "gs://gs://bucket" /\
  leading_copies GcsPrefix (NormalizeGCSPath "gs://gs://bucket") <> 1.
Proof. split; [reflexivity | vm_compute; discriminate]. Qed.

(** C2, amended. The normalized path starts with the prefix and is the
    prefix followed by the input less one leading copy of it; the number
    of leading copies of the result is that of the input, but at least
    one: exactly one when the input starts with the prefix at most once. *)
Theorem NormalizeGCSPath_leading_copies (p : string) :
  strings.HasPrefix (NormalizeGCSPath p) GcsPrefix = true /\
  NormalizeGCSPath p = GcsPrefix ++ strings.TrimPrefix p GcsPrefix /\
  leading_copies GcsPrefix (NormalizeGCSPath p)
  = Nat.max 1 (leading_copies GcsPrefix p).
Proof.
  split; [|split].
  - rewrite NormalizeGCSPath_unfold. apply HasPrefix_append.
  - reflexivity.
  - apply leading_copies_normalized.
Qed.

Corollary NormalizeGCSPath_once_iff (p : string) :
  leading_copies GcsPrefix (NormalizeGCSPath p) = 1 <->
  leading_copies GcsPrefix p <= 1.
Proof. rewrite leading_copies_normalized. lia. Qed.

(** ** Traces and invocations *)

Lemma invocations_app (tr1 tr2 : trace) :
  invocations (tr1 ++ tr2)%list = (invocations tr1 ++ invocations tr2)%list.
Proof.
  induction tr1 as [|e tr1 IH]; simpl; [reflexivity|].
  destruct e; simpl; now rewrite IH.
Qed.

Lemma invocations_logged (tr : trace) (lvl : level) (line : string) :
  invocations (tr ++ [Logged lvl line])%list = invocations tr.
Proof. rewrite invocations_app. simpl. apply app_nil_r. Qed.

Lemma invocations_statted (tr : trace) (name : string) :
  invocations (tr ++ [Statted name])%list = invocations tr.
Proof. rewrite invocations_app. simpl. apply app_nil_r. Qed.

Lemma invocations_ran (tr : trace) (args : list string) :
  invocations (tr ++ [Ran args])%list = (invocations tr ++ [args])%list.
Proof. rewrite invocations_app. reflexivity. Qed.

Ltac tidy_invocations :=
  rewrite ?invocations_logged, ?invocations_statted, ?invocations_ran.

(** ** The invocation routine *)

Lemma invocations_copy_debug_lines (c r n : bool) :
  invocations (copy_debug_lines c r n) = [].
Proof. now destruct c, r, n. Qed.

Section FacadeFacts.

Variable env : Env.

(** With its three toggles set, [bucketCopy] runs the tool once and
    returns the tool's failure wrapped, or nil. *)
Lemma bucketCopy_run (src dst : string) (c r n : bool) (a : option bool)
    (tr : trace) :
  let before := (tr ++ copy_debug_lines c r n)%list in
  let args := copy_arguments c r n src dst in
  bucketCopy env src dst (Some (mkOptions (Some c) (Some r) (Some n) a)) tr
  = (Returned (errors.Wrap (gsutil_answer env before args) "gcs copy"),
     (before ++ [Ran args])%list).
Proof.
  destruct c, r, n;
    cbv [bucketCopy bind ret deref emit logrus_Debug gcp_GSUtil
         Concurrent Recursive NoClobber copy_debug_lines copy_arguments
         flag_if concurrentFlag recursiveFlag noClobberFlag];
    cbn [app]; rewrite <- ?app_assoc; cbn [app]; rewrite ?app_nil_r;
    match goal with
    | |- context [gsutil_answer env ?t ?x] =>
        destruct (gsutil_answer env t x); reflexivity
    end.
Qed.

(** A nil [Options] pointer, or a nil [Concurrent] toggle, stops
    [bucketCopy] at its first dereference. *)
Lemma bucketCopy_nil_options (src dst : string) (tr : trace) :
  bucketCopy env src dst None tr = (Panicked, tr).
Proof. reflexivity. Qed.

Lemma bucketCopy_nil_Concurrent (src dst : string) (r n a : option bool)
    (tr : trace) :
  bucketCopy env src dst (Some (mkOptions None r n a)) tr = (Panicked, tr).
Proof. reflexivity. Qed.

End FacadeFacts.

(** ** The copy entry points *)

Lemma CopyToGCS_missing_run (env : Env) (src gcsPath : string)
    (opts : option Options) (tr : trace) (e : error) :
  let tr1 :=
    (tr ++ [Logged InfoLevel ("Copying " ++ src ++ " to GCS (" ++ gcsPath ++ ")")])%list in
  stat_answer env tr1 src = Some e ->
  CopyToGCS env src gcsPath opts tr
  = (o <- deref opts ;;
     allowMissing <- deref (AllowMissing o) ;;
     if allowMissing then
       logrus_Info ("Source directory (" ++ src
                    ++ ") does not exist. Skipping GCS upload.") ;;;
       ret None
     else ret (Some (New "source directory does not exist")))
      (tr1 ++ [Statted src;
               Logged InfoLevel "Unable to get local source directory info"])%list.
Proof.
  intros tr1 H.
  unfold CopyToGCS, bind at 1 2, logrus_Info at 1, emit, os_Stat.
  fold tr1. rewrite H.
  unfold bind at 1, logrus_Info at 1, emit.
  now rewrite <- app_assoc.
Qed.

(** C4. When the local source does not exist and [AllowMissing] is
    enabled, [CopyToGCS] returns nil and the external tool is not run: the
    invocations after the call are those before it. *)
Theorem CopyToGCS_missing_source_skipped (env : Env) (src gcsPath : string)
    (o : Options) (tr : trace) :
  missing env src ->
  AllowMissing o = Some true ->
  fst (CopyToGCS env src gcsPath (Some o) tr) = Returned None /\
  invocations (snd (CopyToGCS env src gcsPath (Some o) tr)) = invocations tr.
Proof.
  intros Hmiss Hallow.
  set (tr1 := (tr ++ [Logged InfoLevel
                 ("Copying " ++ src ++ " to GCS (" ++ gcsPath ++ ")")])%list).
  destruct (stat_answer env tr1 src) as [e|] eqn:Hstat;
    [|now destruct (Hmiss tr1)].
  rewrite (CopyToGCS_missing_run env src gcsPath (Some o) tr e Hstat).
  cbv [deref bind ret]. rewrite Hallow.
  cbv [logrus_Info emit fst snd]. split; [reflexivity|].
  rewrite !invocations_app. simpl. now rewrite !app_nil_r.
Qed.

Lemma CopyToGCS_missing_source_skipped_witness :
  fst (CopyToGCS empty_fs_env "_output/missing" "k8s-release-dev/ci"
         DefaultGCSCopyOptions []) = Returned None /\
  invocations (snd (CopyToGCS empty_fs_env "_output/missing"
                      "k8s-release-dev/ci" DefaultGCSCopyOptions [])) = [].
Proof.
  apply (CopyToGCS_missing_source_skipped empty_fs_env "_output/missing"
           "k8s-release-dev/ci"
           (mkOptions (Some true) (Some true) (Some true) (Some true)) []).
  - intros tr. simpl. discriminate.
  - reflexivity.
Defined.

(** C5. When the local source does not exist and [AllowMissing] is
    disabled, [CopyToGCS] returns the missing-source error and the
    external tool is not run. *)
Theorem CopyToGCS_missing_source_error (env : Env) (src gcsPath : string)
    (o : Options) (tr : trace) :
  missing env src ->
  AllowMissing o = Some false ->
  fst (CopyToGCS env src gcsPath (Some o) tr)
  = Returned (Some (New "source directory does not exist")) /\
  invocations (snd (CopyToGCS env src gcsPath (Some o) tr)) = invocations tr.
Proof.
  intros Hmiss Hallow.
  set (tr1 := (tr ++ [Logged InfoLevel
                 ("Copying " ++ src ++ " to GCS (" ++ gcsPath ++ ")")])%list).
  destruct (stat_answer env tr1 src) as [e|] eqn:Hstat;
    [|now destruct (Hmiss tr1)].
  rewrite (CopyToGCS_missing_run env src gcsPath (Some o) tr e Hstat).
  cbv [deref bind ret]. rewrite Hallow.
  cbv [fst snd]. split; [reflexivity|].
  rewrite !invocations_app. simpl. now rewrite !app_nil_r.
Qed.

Lemma CopyToGCS_missing_source_error_witness :
  fst (CopyToGCS empty_fs_env "_output/missing" "k8s-release-dev/ci"
         (Some (mkOptions (Some true) (Some true) (Some true) (Some false))) [])
  = Returned (Some (New "source directory does not exist")) /\
  invocations (snd (CopyToGCS empty_fs_env "_output/missing"
                      "k8s-release-dev/ci"
                      (Some (mkOptions (Some true) (Some true) (Some true)
                               (Some false))) [])) = [].
Proof.
  apply (CopyToGCS_missing_source_error empty_fs_env "_output/missing"
           "k8s-release-dev/ci"
           (mkOptions (Some true) (Some true) (Some true) (Some false)) []).
  - intros tr. simpl. discriminate.
  - reflexivity.
Defined.

(** C6, as the specification states it, does not hold for every [Options]
    record: a toggle is a pointer, and with one of them nil (here
    [Recursive]) [bucketCopy] panics when it dereferences it, after the
    concurrency flag was chosen and before the tool is run, so that no
    argument list is passed at all. *)
Lemma bucketCopy_nil_Recursive_no_run :
  returned (bucketCopy failing_tool_env "_output/release-tars"
              "gs://k8s-release-dev/ci"
              (Some (mkOptions (Some true) None (Some true) (Some true))) [])
  = false /\
  invocations (snd (bucketCopy failing_tool_env "_output/release-tars"
                      "gs://k8s-release-dev/ci"
                      (Some (mkOptions (Some true) None (Some true)
                               (Some true))) [])) = [].
Proof. split; reflexivity. Qed.

(** C6, amended. Whatever the source, the destination and the setting of
    the three toggles, when they are set (non-nil), [bucketCopy] runs the
    external tool once, with the arguments in the order: concurrency flag
    if enabled, [cp], recursive flag if enabled, no-clobber flag if
    enabled, source, destination; a disabled toggle adds no argument. *)
Theorem bucketCopy_argument_order (env : Env) (src dst : string)
    (concurrent recursive noClobber : bool) (allowMissing : option bool)
    (tr : trace) :
  invocations
    (snd (bucketCopy env src dst
            (Some (mkOptions (Some concurrent) (Some recursive)
                     (Some noClobber) allowMissing)) tr))
  = (invocations tr
     ++ [(flag_if concurrent "-m" ++ ["cp"] ++ flag_if recursive "-r"
          ++ flag_if noClobber "-n" ++ [src; dst])%list])%list.
Proof.
  rewrite bucketCopy_run. cbv [snd].
  rewrite invocations_ran, invocations_app, invocations_copy_debug_lines.
  now rewrite app_nil_r.
Qed.

(** C9. [PathExists] runs the listing command on the path; it returns true
    and nil exactly when the command succeeds, and false together with
    the command's own failure when it fails. *)
Theorem PathExists_result (env : Env) (gcsPath : string) (tr : trace) :
  fst (PathExists env gcsPath tr)
  = Returned (match gsutil_answer env tr ["ls"; gcsPath] with
              | None => (true, None)
              | Some e => (false, Some e)
              end) /\
  invocations (snd (PathExists env gcsPath tr))
  = (invocations tr ++ [["ls"; gcsPath]])%list.
Proof.
  cbv [PathExists bind gcp_GSUtil ret logrus_Info emit].
  destruct (gsutil_answer env tr ["ls"; gcsPath]); cbv [fst snd];
    tidy_invocations; split; reflexivity.
Qed.

(** C3, as the specification states it, does not hold: with an [Options]
    record whose [Concurrent] pointer is nil, or with a nil [Options]
    pointer, the remote-to-local copy dereferences nil and panics. *)
Lemma CopyToLocal_nil_toggle_panics :
  returned (CopyToLocal failing_tool_env "k8s-release-dev/ci" "/tmp/ci"
              (Some (mkOptions None (Some true) (Some true) (Some true))) [])
  = false /\
  returned (CopyToLocal failing_tool_env "k8s-release-dev/ci" "/tmp/ci"
              None []) = false.
Proof. split; reflexivity. Qed.

(** C3, amended. With an [Options] record whose four toggles are all set,
    [CopyToGCS], [CopyToLocal] and [CopyBucketToBucket] return to the
    caller (nil or an error value), whatever the paths, the state of the
    file system and the answer of the external tool; [RsyncRecursive] and
    [PathExists], which take no [Options], return on every input. *)
Theorem facade_returns (env : Env) (src dst : string)
    (concurrent recursive noClobber allowMissing : bool) (tr : trace) :
  let opts := Some (mkOptions (Some concurrent) (Some recursive)
                      (Some noClobber) (Some allowMissing)) in
  returned (CopyToGCS env src dst opts tr) = true /\
  returned (CopyToLocal env src dst opts tr) = true /\
  returned (CopyBucketToBucket env src dst opts tr) = true /\
  returned (RsyncRecursive env src dst tr) = true /\
  returned (PathExists env src tr) = true.
Proof.
  intros opts. split; [|split; [|split; [|split]]].
  - unfold CopyToGCS, bind at 1 2, logrus_Info at 1, emit, os_Stat.
    match goal with
    | |- context [stat_answer env ?t ?x] => destruct (stat_answer env t x)
    end.
    + destruct allowMissing; reflexivity.
    + unfold opts. now rewrite bucketCopy_run.
  - unfold CopyToLocal, bind, logrus_Info, emit, opts.
    now rewrite bucketCopy_run.
  - unfold CopyBucketToBucket, bind, logrus_Info, emit, opts.
    now rewrite bucketCopy_run.
  - reflexivity.
  - cbv [PathExists bind gcp_GSUtil].
    now destruct (gsutil_answer env tr ["ls"; src]).
Qed.

(** ** [filepath.Clean]: the loop has fuel enough *)

Lemma Clean_examples_hold :
  forallb (fun pq => (filepath.Clean (fst pq) =? snd pq)%string)
    clean_examples = true.
Proof. vm_compute. reflexivity. Qed.

Lemma copy_element_shorter (path : string) (out : list ascii) :
  String.length (fst (filepath.copy_element path out)) <= String.length path.
Proof.
  revert out; induction path as [|c rest IH]; intros out; simpl.
  - lia.
  - destruct (filepath.IsPathSeparator c); simpl; [lia|].
    specialize (IH (c :: out)). lia.
Qed.

Lemma clean_loop_enough (fuel1 : nat) :
  forall (fuel2 : nat) (rooted : bool) (path : string) (out : list ascii)
         (dotdot : nat),
    String.length path <= fuel1 -> String.length path <= fuel2 ->
    filepath.clean_loop fuel1 rooted path out dotdot
    = filepath.clean_loop fuel2 rooted path out dotdot.
Proof.
  induction fuel1 as [|fuel1 IH]; intros fuel2 rooted path out dotdot H1 H2.
  - destruct path; [|simpl in H1; lia]. now destruct fuel2.
  - destruct path as [|c rest]; [now destruct fuel2|].
    destruct fuel2 as [|fuel2]; [simpl in H2; lia|].
    simpl in H1, H2. cbn [filepath.clean_loop].
    destruct (filepath.IsPathSeparator c) eqn:Hsep; [apply IH; lia|].
    destruct (filepath.is_dot c && filepath.element_ends rest);
      [apply IH; lia|].
    match goal with |- (if ?b then _ else _) = _ => destruct b end.
    + assert (String.length (strings.slice_from 1 rest) <= String.length rest)
        by (rewrite slice_from_length; lia).
      destruct (dotdot <? List.length out)%nat; [apply IH; lia|].
      destruct (negb rooted); apply IH; lia.
    + match goal with
      | |- context [filepath.copy_element ?p ?o] =>
          pose proof (copy_element_shorter p o) as Hlen;
          assert (Hstep : filepath.copy_element p o
                          = filepath.copy_element rest (c :: o))
            by (simpl; now rewrite Hsep);
          rewrite Hstep in *;
          pose proof (copy_element_shorter rest (c :: o)) as Hlen';
          destruct (filepath.copy_element rest (c :: o)) as [rest' out2]
      end.
      simpl in Hlen'. apply IH; lia.
Qed.

(** ** Path construction *)

Lemma getPath_run (bucket buildType gcsSuffix version pathType : string)
    (fast : bool) (tr : trace) :
  let base := marker_path_by_spec bucket buildType gcsSuffix in
  let path := if (pathType =? "release")%string
              then with_version (with_fast base fast) version else base in
  getPath bucket buildType gcsSuffix version pathType fast tr
  = (Returned path, (tr ++ [Logged InfoLevel ("GCS path is " ++ path)])%list).
Proof.
  cbv [getPath bind ret logrus_Info emit marker_path_by_spec with_fast
       with_version].
  destruct (gcsSuffix =? "")%string, (pathType =? "release")%string, fast,
    (version =? "")%string; reflexivity.
Qed.

(** The release path is the marker path with the [fast] and version
    segments joined on. *)
Lemma GetReleasePath_result (bucket buildType gcsSuffix version : string)
    (fast : bool) (tr : trace) :
  result_of (GetReleasePath bucket buildType gcsSuffix version fast) tr
  = Returned (with_version
                (with_fast (marker_path_by_spec bucket buildType gcsSuffix)
                   fast) version).
Proof.
  unfold result_of, GetReleasePath. now rewrite getPath_run.
Qed.

(** C10. The marker path is the release path taken with an empty version
    and [fast] disabled: the two calls are the same computation, with the
    same returned string and the same line logged. *)
Theorem GetMarkerPath_is_release_path_without_version
    (bucket buildType gcsSuffix : string) (tr : trace) :
  GetMarkerPath bucket buildType gcsSuffix tr
  = GetReleasePath bucket buildType gcsSuffix "" false tr.
Proof.
  unfold GetMarkerPath, GetReleasePath. now rewrite !getPath_run.
Qed.

(** C7. The marker path has no [fast] and no version segment appended:
    asked for a marker path, the shared builder [getPath] ignores the
    version and the fast flag it is given, and [GetMarkerPath] returns
    bucket and build type joined, with the suffix hyphenated on, and
    nothing more. *)
Theorem GetMarkerPath_appends_no_fast_no_version
    (bucket buildType gcsSuffix version : string) (fast : bool) (tr : trace) :
  getPath bucket buildType gcsSuffix version "marker" fast tr
  = GetMarkerPath bucket buildType gcsSuffix tr /\
  result_of (GetMarkerPath bucket buildType gcsSuffix) tr
  = Returned (marker_path_by_spec bucket buildType gcsSuffix).
Proof.
  unfold result_of, GetMarkerPath. now rewrite !getPath_run.
Qed.

(** C1. The two release paths of the specification, as the code builds
    them: [filepath.Join] cleans the joined path, which turns the [//] of
    the scheme into a single separator. *)
Theorem GetReleasePath_examples (tr : trace) :
  result_of (GetReleasePath "gs://bucket" "ci" "" "" false) tr
  = Returned "gs:/bucket/ci" /\
  result_of (GetReleasePath "gs://bucket" "ci" "fast-build" "v1.2.3" true) tr
  = Returned "gs:/bucket/ci-fast-build/fast/v1.2.3".
Proof. split; reflexivity. Qed.

(** ** [filepath.Clean] on paths of plain elements *)

Lemma list_ascii_of_append (a b : string) :
  list_ascii_of_string (a ++ b)
  = (list_ascii_of_string a ++ list_ascii_of_string b)%list.
Proof.
  induction a as [|c a IH]; simpl; [reflexivity | now rewrite IH].
Qed.

Lemma no_separator_append (a b : string) :
  no_separator (a ++ b) = no_separator a && no_separator b.
Proof.
  unfold no_separator. now rewrite list_ascii_of_append, forallb_app.
Qed.

Lemma no_separator_cons (c : ascii) (s : string) :
  no_separator (String c s)
  = negb (filepath.IsPathSeparator c) && no_separator s.
Proof. reflexivity. Qed.

Lemma plain_element_inv (e : string) :
  plain_element e = true ->
  e <> "" /\ e <> "." /\ e <> ".." /\ no_separator e = true.
Proof.
  unfold plain_element. rewrite !andb_true_iff, !negb_true_iff.
  intros [[[H1 H2] H3] H4].
  apply String.eqb_neq in H1, H2, H3. auto.
Qed.

Lemma copy_element_plain (e tail : string) (out : list ascii) :
  no_separator e = true ->
  filepath.element_ends tail = true ->
  filepath.copy_element (e ++ tail) out
  = (tail, (List.rev (list_ascii_of_string e) ++ out)%list).
Proof.
  revert out; induction e as [|c e IH]; intros out He Htail.
  - simpl. destruct tail as [|d tail]; [reflexivity|].
    simpl in Htail |- *. now rewrite Htail.
  - rewrite no_separator_cons in He.
    apply andb_true_iff in He as [Hc He].
    apply negb_true_iff in Hc.
    simpl. rewrite Hc, (IH (c :: out) He Htail).
    now rewrite <- app_assoc.
Qed.

(** A plain element in front of the unread path is a real path element:
    one turn of the loop copies it, after a separator if the buffer is not
    empty. *)
Lemma clean_loop_plain_element (e tail : string) (out : list ascii)
    (fuel : nat) :
  plain_element e = true ->
  filepath.element_ends tail = true ->
  filepath.clean_loop (S fuel) false (e ++ tail) out 0
  = filepath.clean_loop fuel false tail
      (List.rev (list_ascii_of_string e)
       ++ match out with [] => [] | _ :: _ => filepath.Separator :: out end)%list
      0.
Proof.
  intros He Htail.
  pose proof (plain_element_inv e He) as (Hne & Hdot & Hdotdot & Hsep).
  pose proof (copy_element_plain e tail) as Hcopy.
  destruct e as [|c e']; [congruence|].
  assert (Hc : filepath.IsPathSeparator c = false).
  { rewrite no_separator_cons in Hsep.
    apply andb_true_iff in Hsep as [Hc _]. now apply negb_true_iff in Hc. }
  assert (Hone : filepath.is_dot c && filepath.element_ends (e' ++ tail)
                 = false).
  { destruct (filepath.is_dot c) eqn:Hd; [|reflexivity].
    apply Ascii.eqb_eq in Hd; subst c.
    destruct e' as [|d e'']; [congruence|].
    rewrite !no_separator_cons in Hsep.
    apply andb_true_iff in Hsep as [_ Hsep].
    apply andb_true_iff in Hsep as [Hsep _].
    simpl. now apply negb_true_iff in Hsep. }
  assert (Htwo : filepath.is_dot c &&
                 match (e' ++ tail) with
                 | EmptyString => false
                 | String d rest2 =>
                     filepath.is_dot d && filepath.element_ends rest2
                 end = false).
  { destruct (filepath.is_dot c) eqn:Hd; [|reflexivity].
    apply Ascii.eqb_eq in Hd; subst c.
    destruct e' as [|d e'']; [congruence|].
    simpl. destruct (filepath.is_dot d) eqn:Hd; [|reflexivity].
    apply Ascii.eqb_eq in Hd; subst d.
    destruct e'' as [|x e3]; [congruence|].
    rewrite !no_separator_cons in Hsep.
    apply andb_true_iff in Hsep as [_ Hsep].
    apply andb_true_iff in Hsep as [_ Hsep].
    apply andb_true_iff in Hsep as [Hsep _].
    simpl. now apply negb_true_iff in Hsep. }
  change (String c e' ++ tail) with (String c (e' ++ tail)) in *.
  cbn [filepath.clean_loop]. rewrite Hc, Hone, Htwo.
  cbn [andb orb negb].
  destruct out as [|b out]; cbn [List.length Nat.eqb negb];
    rewrite (Hcopy _ Hsep Htail); reflexivity.
Qed.

Lemma Join_cons_cons (e e2 : string) (rest : list string) (sep : string) :
  strings.Join (e :: e2 :: rest) sep = e ++ sep ++ strings.Join (e2 :: rest) sep.
Proof. reflexivity. Qed.

Lemma Join_snoc (es : list string) (e sep : string) :
  es <> [] ->
  strings.Join (es ++ [e]) sep = strings.Join es sep ++ sep ++ e.
Proof.
  induction es as [|a es IH]; intros Hne; [congruence|].
  destruct es as [|b es]; [reflexivity|].
  change ((a :: b :: es) ++ [e])%list with (a :: b :: (es ++ [e]))%list.
  rewrite !Join_cons_cons.
  change (b :: (es ++ [e]))%list with ((b :: es) ++ [e])%list.
  rewrite IH by discriminate.
  now rewrite !string_append_assoc.
Qed.

Lemma clean_loop_done (fuel : nat) (rooted : bool) (out : list ascii)
    (dotdot : nat) :
  filepath.clean_loop fuel rooted "" out dotdot = out.
Proof. now destruct fuel. Qed.

(** The loop copies a relative path of plain elements as it is. *)
Lemma clean_loop_plain_path (es : list string) :
  es <> [] -> forallb plain_element es = true ->
  forall (fuel : nat) (out : list ascii),
    String.length (strings.Join es "/") <= fuel ->
    filepath.clean_loop fuel false (strings.Join es "/") out 0
    = (List.rev (list_ascii_of_string (strings.Join es "/"))
       ++ match out with [] => [] | _ :: _ => filepath.Separator :: out end)%list.
Proof.
  induction es as [|e es IH]; intros Hne Hplain fuel out Hfuel; [congruence|].
  simpl in Hplain. apply andb_true_iff in Hplain as [He Hes].
  pose proof (plain_element_inv e He) as (Hnonempty & _).
  assert (Hlen : 1 <= String.length e)
    by (destruct e; [congruence | simpl; lia]).
  destruct es as [|e2 es].
  - cbn [strings.Join] in *.
    destruct fuel as [|fuel]; [lia|].
    rewrite <- (string_append_nil_r e) at 1.
    rewrite clean_loop_plain_element by (assumption || reflexivity).
    apply clean_loop_done.
  - rewrite Join_cons_cons in *.
    rewrite length_append in Hfuel.
    change ("/" ++ strings.Join (e2 :: es) "/")
      with (String "/"%char (strings.Join (e2 :: es) "/")) in *.
    cbn [String.length] in Hfuel.
    destruct fuel as [|fuel]; [lia|].
    rewrite clean_loop_plain_element by (assumption || reflexivity).
    destruct fuel as [|fuel]; [lia|].
    cbn [filepath.clean_loop].
    change (filepath.IsPathSeparator "/"%char) with true. cbv iota.
    rewrite IH by (discriminate || assumption || lia).
    rewrite list_ascii_of_append. simpl list_ascii_of_string.
    rewrite rev_app_distr. simpl List.rev.
    destruct (List.rev (list_ascii_of_string e)
              ++ match out with [] => [] | _ :: _ => filepath.Separator :: out end)%list
      as [|x xs] eqn:E.
    + apply app_eq_nil in E as [E _].
      apply (f_equal (@List.rev ascii)) in E. rewrite rev_involutive in E.
      destruct e; [congruence | discriminate].
    + rewrite <- E, <- !app_assoc. reflexivity.
Qed.

Lemma Clean_unrooted (path : string) (c : ascii) (tail : string) :
  path = String c tail ->
  filepath.IsPathSeparator c = false ->
  filepath.Clean path
  = string_of_list_ascii
      (List.rev
         (let out := filepath.clean_loop (String.length path) false path [] 0 in
          if (List.length out =? 0)%nat then ["."%char] else out)).
Proof.
  intros -> Hc. unfold filepath.Clean. now rewrite Hc.
Qed.

(** [Clean] is the identity on relative paths of plain elements with
    single separators. *)
Lemma Clean_plain_path (es : list string) :
  es <> [] -> forallb plain_element es = true ->
  filepath.Clean (strings.Join es "/") = strings.Join es "/".
Proof.
  intros Hne Hplain.
  pose proof (clean_loop_plain_path es Hne Hplain) as Hloop.
  destruct es as [|e es]; [congruence|].
  assert (He : plain_element e = true)
    by (simpl in Hplain; now apply andb_true_iff in Hplain).
  pose proof (plain_element_inv e He) as (Hnonempty & _ & _ & Hsep).
  destruct e as [|c e']; [congruence|].
  assert (Hc : filepath.IsPathSeparator c = false).
  { rewrite no_separator_cons in Hsep.
    apply andb_true_iff in Hsep as [Hc _]. now apply negb_true_iff in Hc. }
  remember (strings.Join (String c e' :: es) "/") as path eqn:Hpath.
  assert (Hhead : exists tail, path = String c tail).
  { subst path. destruct es; [now exists e'|].
    rewrite Join_cons_cons. simpl. eauto. }
  destruct Hhead as [tail Htail].
  rewrite (Clean_unrooted path c tail Htail Hc). cbv zeta.
  rewrite (Hloop (String.length path) []) by lia.
  rewrite app_nil_r, length_rev.
  destruct (list_ascii_of_string path) as [|x xs] eqn:E.
  - rewrite Htail in E. discriminate.
  - cbn [List.length Nat.eqb]. rewrite <- E, rev_involutive.
    apply string_of_list_ascii_of_string.
Qed.

(** Joining one more plain element onto such a path appends it after a
    separator. *)
Lemma Join_plain_path (es : list string) (e : string) :
  es <> [] -> forallb plain_element es = true -> plain_element e = true ->
  filepath.Join [strings.Join es "/"; e] = strings.Join (es ++ [e]) "/".
Proof.
  intros Hne Hplain He.
  assert (Hnonempty : strings.Join es "/" <> "").
  { destruct es as [|a es]; [congruence|].
    simpl in Hplain. apply andb_true_iff in Hplain as [Ha _].
    apply plain_element_inv in Ha as (Ha & _).
    destruct a; [congruence|]. destruct es; discriminate. }
  unfold filepath.Join.
  apply String.eqb_neq in Hnonempty. rewrite Hnonempty.
  change (strings.Join [strings.Join es "/"; e]
            (String filepath.Separator ""))
    with (strings.Join es "/" ++ "/" ++ e).
  rewrite <- Join_snoc by assumption.
  apply Clean_plain_path.
  - destruct es; discriminate.
  - rewrite forallb_app, Hplain. simpl. now rewrite He.
Qed.

Lemma plain_element_hyphenated (buildType suffix : string) :
  plain_element buildType = true -> no_separator suffix = true ->
  plain_element (buildType ++ "-" ++ suffix) = true.
Proof.
  intros Ht Hs.
  apply plain_element_inv in Ht as (Hne & _ & _ & Hsep).
  unfold plain_element.
  rewrite !no_separator_append, Hsep, Hs.
  destruct buildType as [|c t]; [congruence|].
  destruct t as [|d t]; simpl.
  - destruct (Ascii.eqb c "."%char); reflexivity.
  - destruct (Ascii.eqb c "."%char); [|reflexivity].
    destruct (Ascii.eqb d "."%char); [|reflexivity].
    destruct t; reflexivity.
Qed.

(** The string a release path is, segment by segment, when its parts are
    plain. *)
Lemma release_path_segments
    (bucket buildType gcsSuffix version : string) (fast : bool) :
  plain_element bucket = true ->
  plain_element buildType = true ->
  no_separator gcsSuffix = true ->
  (version =? "")%string || plain_element version = true ->
  with_version
    (with_fast (marker_path_by_spec bucket buildType gcsSuffix) fast) version
  = strings.Join (release_segments bucket buildType gcsSuffix version fast) "/".
Proof.
  intros Hb Ht Hs Hv.
  unfold release_segments, marker_path_by_spec.
  set (second := if (gcsSuffix =? "")%string then buildType
                 else buildType ++ "-" ++ gcsSuffix).
  assert (Hsecond : plain_element second = true).
  { unfold second. destruct (gcsSuffix =? "")%string; [assumption|].
    now apply plain_element_hyphenated. }
  assert (Hbase : (if (gcsSuffix =? "")%string
                   then filepath.Join [bucket; buildType]
                   else filepath.Join [bucket; buildType] ++ "-" ++ gcsSuffix)
                  = strings.Join [bucket; second] "/").
  { change bucket with (strings.Join [bucket] "/") at 1 2.
    rewrite Join_plain_path by (discriminate || simpl; now rewrite ?Hb).
    unfold second. cbn [app strings.Join].
    destruct (gcsSuffix =? "")%string; [reflexivity|].
    now rewrite !string_append_assoc. }
  rewrite Hbase.
  assert (Hpair : forallb plain_element [bucket; second] = true)
    by (simpl; now rewrite Hb, Hsecond).
  unfold with_fast, with_version.
  destruct fast.
  - rewrite Join_plain_path by (discriminate || assumption || reflexivity).
    destruct (version =? "")%string eqn:Ev; [reflexivity|].
    simpl in Hv.
    change (([bucket; second] ++ ["fast"]) ++ [version])%list
      with ([bucket; second; "fast"] ++ [version])%list.
    apply Join_plain_path; try discriminate; assumption.
  - destruct (version =? "")%string eqn:Ev; [reflexivity|].
    simpl in Hv.
    now apply Join_plain_path.
Qed.

(** X12. For a plain bucket and build type, a suffix without a separator
    and a version that is plain or empty, the release path has the
    segments of the specification in its order, joined by single
    separators. *)
Lemma GetReleasePath_segment_order
    (bucket buildType gcsSuffix version : string) (fast : bool) (tr : trace) :
  plain_element bucket = true ->
  plain_element buildType = true ->
  no_separator gcsSuffix = true ->
  (version =? "")%string || plain_element version = true ->
  result_of (GetReleasePath bucket buildType gcsSuffix version fast) tr
  = Returned (strings.Join
                (release_segments bucket buildType gcsSuffix version fast) "/").
Proof.
  intros Hb Ht Hs Hv.
  rewrite GetReleasePath_result. f_equal.
  now apply release_path_segments.
Qed.

(** X13. For a plain bucket and build type and a suffix without a
    separator, the marker path is [<bucket>/<buildType>[-<suffix>]]. *)
Lemma GetMarkerPath_segments (bucket buildType gcsSuffix : string)
    (tr : trace) :
  plain_element bucket = true ->
  plain_element buildType = true ->
  no_separator gcsSuffix = true ->
  result_of (GetMarkerPath bucket buildType gcsSuffix) tr
  = Returned (strings.Join
                [bucket; if (gcsSuffix =? "")%string then buildType
                         else buildType ++ "-" ++ gcsSuffix] "/").
Proof.
  intros Hb Ht Hs.
  pose proof (release_path_segments bucket buildType gcsSuffix ""
                false Hb Ht Hs eq_refl) as H.
  unfold result_of, GetMarkerPath. rewrite getPath_run.
  cbn [String.eqb fst] in *. f_equal. exact H.
Qed.


(** ** [filepath.Clean] never writes two separators in a row *)

Lemma NoDoubleSeparator_nil : NoDoubleSeparator [].
Proof. intros [|x l1] a b l2 H; discriminate. Qed.

Lemma NoDoubleSeparator_cons (a : ascii) (l : list ascii) :
  NoDoubleSeparator l ->
  match l with
  | [] => True
  | b :: _ =>
      filepath.IsPathSeparator a = false \/ filepath.IsPathSeparator b = false
  end ->
  NoDoubleSeparator (a :: l).
Proof.
  intros Hl Hhead [|x l1] a' b' l2 H; simpl in H.
  - injection H as -> ->. exact Hhead.
  - injection H as -> ->. now apply (Hl l1 a' b' l2).
Qed.

Lemma NoDoubleSeparator_tail (a : ascii) (l : list ascii) :
  NoDoubleSeparator (a :: l) -> NoDoubleSeparator l.
Proof.
  intros H l1 x y l2 E. apply (H (a :: l1) x y l2). simpl. now rewrite E.
Qed.

Lemma NoDoubleSeparator_head (a b : ascii) (l : list ascii) :
  NoDoubleSeparator (a :: b :: l) ->
  filepath.IsPathSeparator a = false \/ filepath.IsPathSeparator b = false.
Proof. intros H. now apply (H [] a b l). Qed.

Lemma NoDoubleSeparator_rev (l : list ascii) :
  NoDoubleSeparator l -> NoDoubleSeparator (List.rev l).
Proof.
  intros H l1 a b l2 E.
  apply (f_equal (@List.rev ascii)) in E.
  rewrite rev_involutive, rev_app_distr in E. simpl in E.
  rewrite <- !app_assoc in E. simpl in E.
  destruct (H (List.rev l2) b a (List.rev l1) E); auto.
Qed.

Lemma NoDoubleSeparator_app_plain (pre out : list ascii) :
  Forall (fun c => filepath.IsPathSeparator c = false) pre ->
  NoDoubleSeparator out -> NoDoubleSeparator (pre ++ out)%list.
Proof.
  induction 1 as [|c pre Hc _ IH]; intros Hout; [exact Hout|].
  simpl. apply NoDoubleSeparator_cons; [now apply IH|].
  destruct (pre ++ out)%list; auto.
Qed.

Lemma floor_app (dotdot : nat) (pre out : list ascii) :
  dotdot <= List.length out ->
  floor dotdot (pre ++ out)%list = floor dotdot out.
Proof.
  intros H. unfold floor. rewrite length_app, skipn_app.
  rewrite skipn_all2 by lia. simpl. f_equal. lia.
Qed.

Lemma floor_all (out : list ascii) : floor (List.length out) out = out.
Proof. unfold floor. now rewrite Nat.sub_diag. Qed.

Lemma head_ok_plain (rooted : bool) (c : ascii) (out : list ascii) :
  filepath.IsPathSeparator c = false -> head_ok rooted (c :: out) = true.
Proof. intros H. simpl. now rewrite H. Qed.

(** Backtracking gives up bytes but keeps the invariant. *)
Lemma backtrack_ok (rooted : bool) (dotdot : nat) (out : list ascii) :
  forall given_up : ascii,
    NoDoubleSeparator (given_up :: out) ->
    dotdot <= List.length out ->
    head_ok rooted (floor dotdot out) = true ->
    let out' := filepath.backtrack dotdot given_up out in
    NoDoubleSeparator out' /\ head_ok rooted out' = true /\
    dotdot <= List.length out' /\ head_ok rooted (floor dotdot out') = true.
Proof.
  induction out as [|c out IH]; intros g Hnds Hlen Hfloor; simpl.
  - repeat split; auto using NoDoubleSeparator_nil.
  - destruct (dotdot <? S (List.length out))%nat eqn:Hlt.
    + apply Nat.ltb_lt in Hlt.
      destruct (filepath.IsPathSeparator g) eqn:Hg; simpl.
      * repeat split; eauto using NoDoubleSeparator_tail.
        destruct (NoDoubleSeparator_head _ _ _ Hnds) as [H|H];
          [congruence | now apply head_ok_plain].
      * apply IH; [eauto using NoDoubleSeparator_tail | lia |].
        now rewrite <- (floor_app dotdot [c] out) by lia.
    + apply Nat.ltb_ge in Hlt. simpl in Hlen.
      assert (dotdot = List.length (c :: out)) by (simpl; lia). subst dotdot.
      rewrite floor_all in Hfloor. simpl.
      repeat split; eauto using NoDoubleSeparator_tail.
      change (head_ok rooted (floor (List.length (c :: out)) (c :: out)) = true).
      now rewrite floor_all.
Qed.

Lemma copy_element_appends (path : string) :
  forall out : list ascii,
    exists pre : list ascii,
      snd (filepath.copy_element path out) = (pre ++ out)%list /\
      Forall (fun c => filepath.IsPathSeparator c = false) pre.
Proof.
  induction path as [|c rest IH]; intros out; simpl.
  - now exists [].
  - destruct (filepath.IsPathSeparator c) eqn:Hc; [now exists []|].
    destruct (IH (c :: out)) as (pre & E & Hpre).
    exists (pre ++ [c])%list. rewrite <- app_assoc. split; [exact E|].
    apply Forall_app. auto.
Qed.

(** Bytes written after the buffer keep the invariant when they end in a
    byte that is not a separator and put no separator next to another. *)
Lemma buffer_ok_extend (rooted : bool) (dotdot : nat) (c : ascii)
    (pre out : list ascii) :
  buffer_ok rooted dotdot out ->
  filepath.IsPathSeparator c = false ->
  NoDoubleSeparator (c :: pre ++ out)%list ->
  buffer_ok rooted dotdot (c :: pre ++ out)%list.
Proof.
  intros (_ & _ & Hlen & Hfloor & Hroot) Hc Hnds.
  repeat split; try assumption.
  - now apply head_ok_plain.
  - simpl. rewrite length_app. lia.
  - change (c :: pre ++ out)%list with ((c :: pre) ++ out)%list.
    now rewrite (floor_app dotdot (c :: pre) out).
Qed.

(** The buffer after a [..] element that cannot backtrack in a path that
    is not rooted: [..] is appended, after a separator if need be, and
    becomes the new floor. *)
Lemma buffer_ok_dotdot (dotdot : nat) (out : list ascii) :
  buffer_ok false dotdot out ->
  let out2 :=
    ("."%char :: "."%char
       :: (if (0 <? List.length out)%nat then filepath.Separator :: out
           else out)) in
  buffer_ok false (List.length out2) out2.
Proof.
  intros (Hnds & Hhead & _) out2.
  assert (Hdot : filepath.IsPathSeparator "."%char = false) by reflexivity.
  assert (Hnds2 : NoDoubleSeparator out2).
  { unfold out2. destruct out as [|h out']; cbn [List.length Nat.ltb Nat.leb].
    - repeat apply NoDoubleSeparator_cons; auto using NoDoubleSeparator_nil.
    - simpl in Hhead. rewrite orb_false_r in Hhead.
      apply negb_true_iff in Hhead.
      do 3 (apply NoDoubleSeparator_cons; [|simpl; auto]). exact Hnds. }
  split; [exact Hnds2|].
  split; [reflexivity|].
  split; [lia|].
  split; [now rewrite floor_all | discriminate].
Qed.

(** The buffer of a real path element before its bytes are copied: a
    separator is added unless the buffer is empty or holds the root. *)
Lemma buffer_with_separator (rooted : bool) (dotdot : nat) (out : list ascii) :
  buffer_ok rooted dotdot out ->
  let out1 :=
    if (rooted && negb (List.length out =? 1)%nat)
       || (negb rooted && negb (List.length out =? 0)%nat)
    then filepath.Separator :: out else out in
  NoDoubleSeparator out1 /\ exists sep1, out1 = (sep1 ++ out)%list.
Proof.
  intros (Hnds & Hhead & Hlen & Hfloor & Hroot) out1. unfold out1.
  destruct ((rooted && negb (List.length out =? 1)%nat)
            || (negb rooted && negb (List.length out =? 0)%nat)) eqn:Hcond.
  - split; [|now exists [filepath.Separator]].
    apply NoDoubleSeparator_cons; [assumption|].
    destruct out as [|h out']; [exact I|]. right.
    destruct rooted; simpl in Hcond, Hhead.
    + destruct out' as [|h' out'']; [discriminate|].
      rewrite orb_false_r in Hhead. now apply negb_true_iff in Hhead.
    + rewrite orb_false_r in Hhead. now apply negb_true_iff in Hhead.
  - split; [assumption | now exists []].
Qed.

Lemma clean_loop_ok (fuel : nat) :
  forall (rooted : bool) (path : string) (out : list ascii) (dotdot : nat),
    buffer_ok rooted dotdot out ->
    NoDoubleSeparator (filepath.clean_loop fuel rooted path out dotdot).
Proof.
  induction fuel as [|fuel IH]; intros rooted path out dotdot Hok;
    [exact (proj1 Hok)|].
  destruct path as [|c rest]; [exact (proj1 Hok)|].
  cbn [filepath.clean_loop].
  destruct (filepath.IsPathSeparator c) eqn:Hc; [now apply IH|].
  destruct (filepath.is_dot c && filepath.element_ends rest);
    [now apply IH|].
  match goal with |- context [if ?b then _ else _] => destruct b eqn:Hdd end.
  - (* .. element *)
    destruct (dotdot <? List.length out)%nat eqn:Hlt.
    + apply Nat.ltb_lt in Hlt.
      destruct out as [|g out']; [simpl in Hlt; lia|]. simpl in Hlt.
      destruct Hok as (Hnds & Hhead & Hlen & Hfloor & Hroot).
      destruct (backtrack_ok rooted dotdot out' g Hnds) as (H1 & H2 & H3 & H4);
        [lia | now rewrite <- (floor_app dotdot [g] out') by lia |].
      apply IH. repeat split; assumption.
    + destruct rooted; cbn [negb]; [now apply IH|].
      apply IH. exact (buffer_ok_dotdot dotdot out Hok).
  - (* real path element *)
    destruct (buffer_with_separator rooted dotdot out Hok)
      as (Hnds1 & sep1 & Eout1).
    set (out1 := if (rooted && negb (List.length out =? 1)%nat)
                    || (negb rooted && negb (List.length out =? 0)%nat)
                 then filepath.Separator :: out else out) in *.
    assert (Hstep : filepath.copy_element (String c rest) out1
                    = filepath.copy_element rest (c :: out1))
      by (simpl; now rewrite Hc).
    rewrite Hstep.
    destruct (copy_element_appends rest (c :: out1)) as (pre & E & Hpre).
    destruct (filepath.copy_element rest (c :: out1)) as [rest' out2].
    simpl in E. subst out2. apply IH.
    assert (Hnds2 : NoDoubleSeparator (pre ++ c :: out1)%list).
    { apply NoDoubleSeparator_app_plain; [assumption|].
      apply NoDoubleSeparator_cons; [assumption|]. destruct out1; auto. }
    assert (Hlast : exists h t, (pre ++ c :: sep1)%list = h :: t /\
                                filepath.IsPathSeparator h = false).
    { destruct pre as [|h t]; simpl; [now exists c, sep1|].
      exists h, (t ++ c :: sep1)%list. split; [reflexivity|].
      now inversion Hpre. }
    destruct Hlast as (h & t & Eht & Hh).
    assert (Eq : (pre ++ c :: out1)%list = (h :: t ++ out)%list).
    { transitivity ((pre ++ c :: sep1) ++ out)%list;
        [rewrite Eout1, <- app_assoc | rewrite Eht]; reflexivity. }
    rewrite Eq in *. now apply buffer_ok_extend.
Qed.

Lemma list_ascii_of_string_of_list (l : list ascii) :
  list_ascii_of_string (string_of_list_ascii l) = l.
Proof. apply list_ascii_of_string_of_list_ascii. Qed.

(** The cleaned path has no two separators in a row. *)
Lemma Clean_no_double_separator (path : string) :
  NoDoubleSeparator (list_ascii_of_string (filepath.Clean path)).
Proof.
  assert (Hdot : NoDoubleSeparator ["."%char])
    by (apply NoDoubleSeparator_cons; auto using NoDoubleSeparator_nil).
  destruct path as [|c0 tail]; [exact Hdot|].
  unfold filepath.Clean.
  rewrite list_ascii_of_string_of_list.
  apply NoDoubleSeparator_rev.
  match goal with
  | |- NoDoubleSeparator (if _ then _ else ?l) =>
      assert (H : NoDoubleSeparator l)
  end.
  { apply clean_loop_ok.
    destruct (filepath.IsPathSeparator c0) eqn:Hc0.
    - repeat split; simpl; auto.
      apply NoDoubleSeparator_cons; auto using NoDoubleSeparator_nil.
    - repeat split; simpl; auto using NoDoubleSeparator_nil.
      intros; discriminate. }
  match goal with |- NoDoubleSeparator (if ?b then _ else _) => destruct b end;
    assumption.
Qed.

Lemma Join_no_double_separator (elem : list string) :
  NoDoubleSeparator (list_ascii_of_string (filepath.Join elem)).
Proof.
  induction elem as [|e rest IH]; simpl; [apply NoDoubleSeparator_nil|].
  destruct (e =? "")%string; [exact IH | apply Clean_no_double_separator].
Qed.

(** ** No release path starts with the scheme prefix *)

Lemma no_double_separator_no_scheme (s : string) :
  NoDoubleSeparator (list_ascii_of_string s) ->
  strings.HasPrefix s GcsPrefix = false.
Proof.
  intros H. destruct (strings.HasPrefix s GcsPrefix) eqn:E; [|reflexivity].
  apply HasPrefix_split in E. rewrite E in H.
  destruct (H ["g"; "s"; ":"]%char "/"%char "/"%char
              (list_ascii_of_string
                 (strings.slice_from (String.length GcsPrefix) s)));
    [reflexivity | discriminate | discriminate].
Qed.

Lemma hyphenated_no_scheme (path suffix : string) :
  NoDoubleSeparator (list_ascii_of_string path) ->
  strings.HasPrefix (path ++ "-" ++ suffix) GcsPrefix = false.
Proof.
  intros H.
  destruct path as [|c1 path]; [reflexivity|]. simpl.
  destruct (Ascii.eqb_spec c1 "g"); [subst c1|reflexivity].
  destruct path as [|c2 path]; [reflexivity|]. simpl.
  destruct (Ascii.eqb_spec c2 "s"); [subst c2|reflexivity].
  destruct path as [|c3 path]; [reflexivity|]. simpl.
  destruct (Ascii.eqb_spec c3 ":"); [subst c3|reflexivity].
  destruct path as [|c4 path]; [reflexivity|]. simpl.
  destruct (Ascii.eqb_spec c4 "/"); [subst c4|reflexivity].
  destruct path as [|c5 path]; [reflexivity|]. simpl.
  destruct (Ascii.eqb_spec c5 "/"); [subst c5|reflexivity].
  destruct (H ["g"; "s"; ":"]%char "/"%char "/"%char
              (list_ascii_of_string path));
    [reflexivity | discriminate | discriminate].
Qed.

Lemma release_path_no_scheme
    (bucket buildType gcsSuffix version : string) (fast : bool) :
  strings.HasPrefix
    (with_version
       (with_fast (marker_path_by_spec bucket buildType gcsSuffix) fast)
       version) GcsPrefix = false.
Proof.
  unfold with_version, with_fast, marker_path_by_spec.
  destruct (version =? "")%string;
    [|apply no_double_separator_no_scheme, Join_no_double_separator].
  destruct fast;
    [apply no_double_separator_no_scheme, Join_no_double_separator|].
  destruct (gcsSuffix =? "")%string.
  - apply no_double_separator_no_scheme, Join_no_double_separator.
  - apply hyphenated_no_scheme, Join_no_double_separator.
Qed.

(** Whatever the bucket, build type, suffix, version and flag, the path
    [GetReleasePath] returns does not start with [gs://]: every way through
    [getPath] ends in a cleaned path, or in a cleaned path followed by a
    hyphen. *)
Lemma GetReleasePath_never_has_scheme
    (bucket buildType gcsSuffix version : string) (fast : bool) (tr : trace) :
  exists path : string,
    result_of (GetReleasePath bucket buildType gcsSuffix version fast) tr
    = Returned path /\
    strings.HasPrefix path GcsPrefix = false.
Proof.
  eexists. split; [apply GetReleasePath_result|].
  apply release_path_no_scheme.
Qed.

(** ** More on the copy operations *)

Lemma stats_app (tr1 tr2 : trace) :
  stats (tr1 ++ tr2)%list = (stats tr1 ++ stats tr2)%list.
Proof.
  induction tr1 as [|e tr1 IH]; simpl; [reflexivity|].
  destruct e; simpl; now rewrite IH.
Qed.

Lemma stats_copy_debug_lines (c r n : bool) :
  stats (copy_debug_lines c r n) = [].
Proof. now destruct c, r, n. Qed.

Ltac tidy_trace :=
  rewrite ?invocations_app, ?stats_app, ?invocations_copy_debug_lines,
    ?stats_copy_debug_lines;
  cbn [invocations stats app]; rewrite ?app_nil_r.

(** What [bucketCopy] leaves in the trace, for every [Options] pointer. *)
Lemma bucketCopy_effects (env : Env) (src dst : string)
    (opts : option Options) (tr : trace) :
  returned (bucketCopy env src dst opts tr) = options_complete opts /\
  invocations (snd (bucketCopy env src dst opts tr))
  = (invocations tr ++ copy_invocations opts src dst)%list /\
  stats (snd (bucketCopy env src dst opts tr)) = stats tr.
Proof.
  destruct opts as [[c r n a]|]; [|now cbn; rewrite app_nil_r].
  destruct c as [c|]; [|now cbn; rewrite app_nil_r].
  destruct r as [r|].
  - destruct n as [n|].
    + rewrite bucketCopy_run. cbn [returned fst snd options_complete
        copy_invocations Concurrent Recursive NoClobber].
      tidy_trace. auto.
    + destruct c, r; cbn; tidy_trace; auto.
  - destruct c; cbn; tidy_trace; auto.
Qed.

(** X1. [bucketCopy] returns exactly when the [Options] pointer and its
    [Concurrent], [Recursive] and [NoClobber] toggles are non-nil,
    whatever [AllowMissing] is; it then has run the tool once.  Otherwise
    it panics, and it does so before the tool is run. *)
Theorem bucketCopy_panics_before_run (env : Env) (src dst : string)
    (opts : option Options) (tr : trace) :
  returned (bucketCopy env src dst opts tr) = options_complete opts /\
  invocations (snd (bucketCopy env src dst opts tr))
  = (invocations tr ++ copy_invocations opts src dst)%list /\
  List.length (copy_invocations opts src dst)
  = (if options_complete opts then 1 else 0).
Proof.
  destruct (bucketCopy_effects env src dst opts tr) as (H1 & H2 & _).
  split; [exact H1|]. split; [exact H2|].
  destruct opts as [[[c|] [r|] [n|] a]|]; reflexivity.
Qed.

(** X2. With its three gsutil toggles set, the remote-to-local copy runs
    the tool once, on the normalized bucket path and the destination as
    given; it returns nil when the tool succeeds and the tool's error
    wrapped with "gcs copy" when it fails.  It never calls [os.Stat], and
    [AllowMissing] is not read: it may even be nil. *)
Theorem CopyToLocal_run (env : Env) (gcsPath dst : string) (c r n : bool)
    (a : option bool) (tr : trace) :
  let before :=
    (tr ++ Logged InfoLevel ("Copying GCS (" ++ gcsPath ++ ") to " ++ dst)
        :: copy_debug_lines c r n)%list in
  let args := copy_arguments c r n (NormalizeGCSPath gcsPath) dst in
  CopyToLocal env gcsPath dst (Some (mkOptions (Some c) (Some r) (Some n) a)) tr
  = (Returned (errors.Wrap (gsutil_answer env before args) "gcs copy"),
     (before ++ [Ran args])%list).
Proof.
  intros before args.
  unfold CopyToLocal, bind at 1, logrus_Info, emit.
  rewrite bucketCopy_run. unfold before, args.
  now rewrite <- !app_assoc.
Qed.

(** X3. With its three gsutil toggles set, the bucket-to-bucket copy runs
    the tool once with both paths normalized, and returns nil or the
    tool's error wrapped with "gcs copy". *)
Theorem CopyBucketToBucket_run (env : Env) (src dst : string) (c r n : bool)
    (a : option bool) (tr : trace) :
  let before :=
    (tr ++ Logged InfoLevel ("Copying " ++ src ++ " to " ++ dst)
        :: copy_debug_lines c r n)%list in
  let args :=
    copy_arguments c r n (NormalizeGCSPath src) (NormalizeGCSPath dst) in
  CopyBucketToBucket env src dst
    (Some (mkOptions (Some c) (Some r) (Some n) a)) tr
  = (Returned (errors.Wrap (gsutil_answer env before args) "gcs copy"),
     (before ++ [Ran args])%list).
Proof.
  intros before args.
  unfold CopyBucketToBucket, bind at 1, logrus_Info, emit.
  rewrite bucketCopy_run. unfold before, args.
  now rewrite <- !app_assoc.
Qed.

Lemma CopyToGCS_present_run (env : Env) (src gcsPath : string)
    (opts : option Options) (tr : trace) :
  let tr1 :=
    (tr ++ [Logged InfoLevel ("Copying " ++ src ++ " to GCS (" ++ gcsPath ++ ")")])%list in
  stat_answer env tr1 src = None ->
  CopyToGCS env src gcsPath opts tr
  = bucketCopy env src (NormalizeGCSPath gcsPath) opts
      (tr1 ++ [Statted src])%list.
Proof.
  intros tr1 H.
  unfold CopyToGCS, bind at 1 2, logrus_Info at 1, emit, os_Stat.
  fold tr1. now rewrite H.
Qed.

(** X4. When the local source exists and the three gsutil toggles are
    set, the local-to-remote copy stats the source, then runs the tool
    once on the source as given and the normalized bucket path; it
    returns nil or the tool's error wrapped with "gcs copy". *)
Theorem CopyToGCS_existing_source (env : Env) (src gcsPath : string)
    (c r n : bool) (a : option bool) (tr : trace) :
  present env src ->
  let before :=
    (tr ++ Logged InfoLevel ("Copying " ++ src ++ " to GCS (" ++ gcsPath ++ ")")
        :: Statted src :: copy_debug_lines c r n)%list in
  let args := copy_arguments c r n src (NormalizeGCSPath gcsPath) in
  CopyToGCS env src gcsPath (Some (mkOptions (Some c) (Some r) (Some n) a)) tr
  = (Returned (errors.Wrap (gsutil_answer env before args) "gcs copy"),
     (before ++ [Ran args])%list).
Proof.
  intros Hpresent before args.
  rewrite CopyToGCS_present_run by apply Hpresent.
  rewrite bucketCopy_run. unfold before, args.
  now rewrite <- !app_assoc.
Qed.

Lemma CopyToGCS_existing_source_witness :
  CopyToGCS failing_tool_env "_output/release-tars" "k8s-release-dev/ci"
    (Some (mkOptions (Some true) (Some false) (Some true) None)) []
  = (Returned (Some (Wrapped (Foreign "exit status 1") "gcs copy")),
     [Logged InfoLevel
        "Copying _output/release-tars to GCS (k8s-release-dev/ci)";
      Statted "_output/release-tars";
      Logged DebugLevel "Setting GCS copy to run concurrently";
      Logged DebugLevel "Setting GCS copy to not clobber existing files";
      Ran ["-m"; "cp"; "-n"; "_output/release-tars";
           "gs://k8s-release-dev/ci"]]).
Proof.
  apply (CopyToGCS_existing_source failing_tool_env "_output/release-tars"
           "k8s-release-dev/ci" true false true None []).
  intros tr. reflexivity.
Defined.

(** X5. A source that does not exist never reaches the external tool,
    whatever the [Options] pointer: the call returns when [AllowMissing]
    can be read and panics when the pointer or the toggle is nil, and in
    both cases the tool is not run. *)
Theorem CopyToGCS_missing_source_never_runs (env : Env)
    (src gcsPath : string) (opts : option Options) (tr : trace) :
  missing env src ->
  returned (CopyToGCS env src gcsPath opts tr) = allow_missing_set opts /\
  invocations (snd (CopyToGCS env src gcsPath opts tr)) = invocations tr.
Proof.
  intros Hmiss.
  set (tr1 := (tr ++ [Logged InfoLevel
                 ("Copying " ++ src ++ " to GCS (" ++ gcsPath ++ ")")])%list).
  destruct (stat_answer env tr1 src) as [e|] eqn:Hstat;
    [|now destruct (Hmiss tr1)].
  rewrite (CopyToGCS_missing_run env src gcsPath opts tr e Hstat).
  destruct opts as [[c r n [[]|]]|]; cbn; unfold tr1; tidy_trace; auto.
Qed.

Lemma CopyToGCS_missing_source_never_runs_witness :
  returned (CopyToGCS empty_fs_env "_output/missing" "k8s-release-dev/ci"
              (Some (mkOptions None None None None)) []) = false /\
  invocations (snd (CopyToGCS empty_fs_env "_output/missing"
                      "k8s-release-dev/ci"
                      (Some (mkOptions None None None None)) [])) = [].
Proof.
  apply (CopyToGCS_missing_source_never_runs empty_fs_env "_output/missing"
           "k8s-release-dev/ci" (Some (mkOptions None None None None)) []).
  intros tr. simpl. discriminate.
Defined.

(** X6. Only the local-to-remote copy looks at the local file system: it
    calls [os.Stat] on the source exactly once, whatever the options and
    whatever the answer, while the other four operations never call it. *)
Theorem only_CopyToGCS_stats (env : Env) (src dst : string)
    (opts : option Options) (tr : trace) :
  stats (snd (CopyToGCS env src dst opts tr)) = (stats tr ++ [src])%list /\
  stats (snd (CopyToLocal env src dst opts tr)) = stats tr /\
  stats (snd (CopyBucketToBucket env src dst opts tr)) = stats tr /\
  stats (snd (RsyncRecursive env src dst tr)) = stats tr /\
  stats (snd (PathExists env src tr)) = stats tr.
Proof.
  split; [|split; [|split; [|split]]].
  - set (tr1 := (tr ++ [Logged InfoLevel
                   ("Copying " ++ src ++ " to GCS (" ++ dst ++ ")")])%list).
    destruct (stat_answer env tr1 src) as [e|] eqn:Hstat.
    + rewrite (CopyToGCS_missing_run env src dst opts tr e Hstat).
      destruct opts as [[c r n [[]|]]|]; cbn; unfold tr1; tidy_trace; auto.
    + rewrite (CopyToGCS_present_run env src dst opts tr Hstat).
      match goal with
      | |- context [bucketCopy env ?x ?y opts ?t] =>
          destruct (bucketCopy_effects env x y opts t) as (_ & _ & ->)
      end.
      now tidy_trace.
  - unfold CopyToLocal, bind at 1, logrus_Info, emit.
    match goal with
    | |- context [bucketCopy env ?x ?y opts ?t] =>
        destruct (bucketCopy_effects env x y opts t) as (_ & _ & ->)
    end.
    now tidy_trace.
  - unfold CopyBucketToBucket, bind at 1, logrus_Info, emit.
    match goal with
    | |- context [bucketCopy env ?x ?y opts ?t] =>
        destruct (bucketCopy_effects env x y opts t) as (_ & _ & ->)
    end.
    now tidy_trace.
  - cbn. now tidy_trace.
  - cbv [PathExists bind gcp_GSUtil ret logrus_Info emit].
    destruct (gsutil_answer env tr ["ls"; src]); cbn [snd]; now tidy_trace.
Qed.

(** [RsyncRecursive] unfolded: one run, always with [-m] and [-r], on the
    two paths as given. *)
Lemma RsyncRecursive_run (env : Env) (src dst : string) (tr : trace) :
  let args := ["-m"; "rsync"; "-r"; src; dst] in
  RsyncRecursive env src dst tr
  = (Returned (errors.Wrap (gsutil_answer env tr args) "running gsutil rsync"),
     (tr ++ [Ran args])%list).
Proof. reflexivity. Qed.

(** X8. With [DefaultGCSCopyOptions] no copy operation panics, and every
    run of the tool has all three flags: [-m cp -r -n].  [CopyToLocal] and
    [CopyBucketToBucket] make exactly that one run, with the bucket paths
    normalized.  [CopyToGCS] makes it, on the source and the normalized
    bucket path, when [os.Stat] succeeds on the source; when [os.Stat]
    fails it makes no run and returns nil. *)
Theorem default_options_copy (env : Env) (src dst : string) (tr : trace) :
  let asked :=
    (tr ++ [Logged InfoLevel ("Copying " ++ src ++ " to GCS (" ++ dst ++ ")")])%list in
  returned (CopyToGCS env src dst DefaultGCSCopyOptions tr) = true /\
  invocations (snd (CopyToGCS env src dst DefaultGCSCopyOptions tr))
  = (invocations tr
     ++ match stat_answer env asked src with
        | None => [["-m"; "cp"; "-r"; "-n"; src; NormalizeGCSPath dst]]
        | Some _ => []
        end)%list /\
  match stat_answer env asked src with
  | None => True
  | Some _ =>
      fst (CopyToGCS env src dst DefaultGCSCopyOptions tr) = Returned None
  end /\
  returned (CopyToLocal env src dst DefaultGCSCopyOptions tr) = true /\
  invocations (snd (CopyToLocal env src dst DefaultGCSCopyOptions tr))
  = (invocations tr
     ++ [["-m"; "cp"; "-r"; "-n"; NormalizeGCSPath src; dst]])%list /\
  returned (CopyBucketToBucket env src dst DefaultGCSCopyOptions tr) = true /\
  invocations (snd (CopyBucketToBucket env src dst DefaultGCSCopyOptions tr))
  = (invocations tr
     ++ [["-m"; "cp"; "-r"; "-n"; NormalizeGCSPath src;
          NormalizeGCSPath dst]])%list.
Proof.
  intros asked. unfold DefaultGCSCopyOptions.
  assert (Hgcs :
    returned (CopyToGCS env src dst
                (Some (mkOptions (Some true) (Some true) (Some true)
                         (Some true))) tr) = true /\
    invocations (snd (CopyToGCS env src dst
                        (Some (mkOptions (Some true) (Some true) (Some true)
                                 (Some true))) tr))
    = (invocations tr
       ++ match stat_answer env asked src with
          | None => [["-m"; "cp"; "-r"; "-n"; src; NormalizeGCSPath dst]]
          | Some _ => []
          end)%list /\
    match stat_answer env asked src with
    | None => True
    | Some _ =>
        fst (CopyToGCS env src dst
               (Some (mkOptions (Some true) (Some true) (Some true)
                        (Some true))) tr) = Returned None
    end).
  { destruct (stat_answer env asked src) as [e|] eqn:Hstat.
    - rewrite (CopyToGCS_missing_run env src dst _ tr e Hstat).
      cbn. fold asked. tidy_trace. auto.
    - rewrite (CopyToGCS_present_run env src dst _ tr Hstat).
      rewrite bucketCopy_run. cbn [returned fst snd].
      tidy_trace. auto. }
  destruct Hgcs as (G1 & G2 & G3).
  split; [exact G1|]. split; [exact G2|]. split; [exact G3|].
  split; [|split; [|split]].
  - unfold CopyToLocal, bind at 1, logrus_Info, emit.
    now rewrite bucketCopy_run.
  - unfold CopyToLocal, bind at 1, logrus_Info, emit.
    rewrite bucketCopy_run. cbn [snd]. now tidy_trace.
  - unfold CopyBucketToBucket, bind at 1, logrus_Info, emit.
    now rewrite bucketCopy_run.
  - unfold CopyBucketToBucket, bind at 1, logrus_Info, emit.
    rewrite bucketCopy_run. cbn [snd]. now tidy_trace.
Qed.

(** X9. Normalizing a bucket path by hand before a copy changes nothing
    in what is run: for every [Options] pointer, the remote-to-local and
    the bucket-to-bucket copy make the same runs of the tool, and return
    or panic alike, on a path and on its normalized form. *)
Theorem copy_of_normalized_path (env : Env) (src dst : string)
    (opts : option Options) (tr : trace) :
  invocations (snd (CopyToLocal env (NormalizeGCSPath src) dst opts tr))
  = invocations (snd (CopyToLocal env src dst opts tr)) /\
  returned (CopyToLocal env (NormalizeGCSPath src) dst opts tr)
  = returned (CopyToLocal env src dst opts tr) /\
  invocations (snd (CopyBucketToBucket env (NormalizeGCSPath src)
                      (NormalizeGCSPath dst) opts tr))
  = invocations (snd (CopyBucketToBucket env src dst opts tr)) /\
  returned (CopyBucketToBucket env (NormalizeGCSPath src)
              (NormalizeGCSPath dst) opts tr)
  = returned (CopyBucketToBucket env src dst opts tr).
Proof.
  unfold CopyToLocal, CopyBucketToBucket, bind, logrus_Info, emit.
  rewrite !NormalizeGCSPath_idempotent.
  repeat match goal with
         | |- context [bucketCopy env ?x ?y opts ?t] =>
             let H1 := fresh in
             let H2 := fresh in
             destruct (bucketCopy_effects env x y opts t) as (H1 & H2 & _);
             rewrite ?H1, ?H2; clear H1 H2;
             generalize (bucketCopy env x y opts t); intro
         end.
  tidy_trace. auto.
Qed.

(** ** More on the path helpers *)

(** X10. [NormalizeGCSPath] returns a path that starts with [gs://] as it
    is, and any other path with [gs://] in front of it, whatever else the
    path contains. *)
Theorem NormalizeGCSPath_cases (p : string) :
  NormalizeGCSPath p
  = if strings.HasPrefix p GcsPrefix then p else GcsPrefix ++ p.
Proof.
  rewrite NormalizeGCSPath_unfold. unfold strings.TrimPrefix.
  destruct (strings.HasPrefix p GcsPrefix) eqn:E; [|reflexivity].
  symmetry. now apply HasPrefix_split.
Qed.

(** X11. A path built by [GetReleasePath] or [GetMarkerPath] never starts
    with [gs://], so normalizing it, as the copy operations do, always
    puts [gs://] in front of it: a bucket given as [gs://bucket] comes
    out as [gs://gs:/bucket/...]. *)
Theorem NormalizeGCSPath_of_built_path
    (bucket buildType gcsSuffix version : string) (fast : bool) (tr : trace) :
  (exists path : string,
     result_of (GetReleasePath bucket buildType gcsSuffix version fast) tr
     = Returned path /\
     NormalizeGCSPath path = GcsPrefix ++ path) /\
  (exists path : string,
     result_of (GetMarkerPath bucket buildType gcsSuffix) tr
     = Returned path /\
     NormalizeGCSPath path = GcsPrefix ++ path).
Proof.
  split.
  - eexists. split; [apply GetReleasePath_result|].
    now rewrite NormalizeGCSPath_cases, release_path_no_scheme.
  - exists (marker_path_by_spec bucket buildType gcsSuffix).
    split; [unfold result_of, GetMarkerPath; now rewrite getPath_run|].
    pose proof (release_path_no_scheme bucket buildType gcsSuffix "" false)
      as H.
    change (strings.HasPrefix
              (marker_path_by_spec bucket buildType gcsSuffix) GcsPrefix
            = false) in H.
    now rewrite NormalizeGCSPath_cases, H.
Qed.

Lemma GetReleasePath_segment_order_witness :
  result_of (GetReleasePath "k8s-release-dev" "ci" "cross" "v1.19.0" true) []
  = Returned "k8s-release-dev/ci-cross/fast/v1.19.0".
Proof.
  exact (GetReleasePath_segment_order "k8s-release-dev" "ci" "cross"
           "v1.19.0" true [] eq_refl eq_refl eq_refl eq_refl).
Defined.

Lemma GetMarkerPath_segments_witness :
  result_of (GetMarkerPath "k8s-release-dev" "ci" "cross") []
  = Returned "k8s-release-dev/ci-cross".
Proof.
  exact (GetMarkerPath_segments "k8s-release-dev" "ci" "cross" []
           eq_refl eq_refl eq_refl).
Defined.

(** X14. For a plain bucket and build type, a suffix without a separator
    and a version that is plain or empty, the release path is the marker
    path of the same bucket, build type and suffix, followed by [/fast]
    when the flag is set and by [/<version>] when there is a version. *)
Theorem GetReleasePath_extends_marker_path
    (bucket buildType gcsSuffix version : string) (fast : bool) (tr : trace) :
  plain_element bucket = true ->
  plain_element buildType = true ->
  no_separator gcsSuffix = true ->
  (version =? "")%string || plain_element version = true ->
  exists marker : string,
    result_of (GetMarkerPath bucket buildType gcsSuffix) tr = Returned marker /\
    result_of (GetReleasePath bucket buildType gcsSuffix version fast) tr
    = Returned (marker ++ (if fast then "/fast" else "")
                ++ (if (version =? "")%string then "" else "/" ++ version)).
Proof.
  intros Hb Ht Hs Hv.
  exists (marker_path_by_spec bucket buildType gcsSuffix).
  split; [unfold result_of, GetMarkerPath; now rewrite getPath_run|].
  rewrite GetReleasePath_result. f_equal.
  rewrite (release_path_segments bucket buildType gcsSuffix version fast)
    by assumption.
  pose proof (release_path_segments bucket buildType gcsSuffix "" false
                Hb Ht Hs eq_refl) as Hbase.
  change (marker_path_by_spec bucket buildType gcsSuffix
          = strings.Join (release_segments bucket buildType gcsSuffix "" false)
              "/") in Hbase.
  rewrite Hbase. unfold release_segments.
  destruct fast, (version =? "")%string; cbn [app strings.Join String.eqb];
    rewrite ?string_append_assoc, ?string_append_nil_r; reflexivity.
Qed.

Lemma GetReleasePath_extends_marker_path_witness :
  exists marker : string,
    result_of (GetMarkerPath "k8s-release-dev" "ci" "cross") []
    = Returned marker /\
    result_of (GetReleasePath "k8s-release-dev" "ci" "cross" "v1.19.0" true) []
    = Returned (marker ++ "/fast" ++ "/" ++ "v1.19.0").
Proof.
  exact (GetReleasePath_extends_marker_path "k8s-release-dev" "ci" "cross"
           "v1.19.0" true [] eq_refl eq_refl eq_refl eq_refl).
Defined.

Lemma Clean_plain_trailing_separator (e : string) :
  plain_element e = true -> filepath.Clean (e ++ "/") = e.
Proof.
  intros He.
  pose proof (plain_element_inv e He) as (Hne & _ & _ & Hsep).
  destruct e as [|c e']; [congruence|].
  assert (Hc : filepath.IsPathSeparator c = false).
  { rewrite no_separator_cons in Hsep.
    apply andb_true_iff in Hsep as [Hc _]. now apply negb_true_iff in Hc. }
  rewrite (Clean_unrooted (String c e' ++ "/") c (e' ++ "/") eq_refl Hc).
  cbv zeta. rewrite length_append. cbn [String.length].
  rewrite Nat.add_1_r.
  rewrite clean_loop_plain_element by (assumption || reflexivity).
  cbn [filepath.clean_loop].
  change (filepath.IsPathSeparator "/"%char) with true. cbv iota.
  rewrite clean_loop_done, app_nil_r, length_rev.
  cbn [list_ascii_of_string List.length Nat.eqb].
  change (c :: list_ascii_of_string e')
    with (list_ascii_of_string (String c e')).
  rewrite rev_involutive. apply string_of_list_ascii_of_string.
Qed.

(** X15. An empty bucket or an empty build type adds no segment and no
    separator: with either one empty, the marker path is the other one
    (when plain) with the suffix hyphenated onto it. *)
Theorem GetMarkerPath_empty_element (e gcsSuffix : string) (tr : trace) :
  plain_element e = true ->
  let path := if (gcsSuffix =? "")%string then e else e ++ "-" ++ gcsSuffix in
  result_of (GetMarkerPath e "" gcsSuffix) tr = Returned path /\
  result_of (GetMarkerPath "" e gcsSuffix) tr = Returned path.
Proof.
  intros He path.
  pose proof (plain_element_inv e He) as (Hne & _).
  apply String.eqb_neq in Hne.
  unfold result_of, GetMarkerPath. rewrite !getPath_run.
  cbn [fst String.eqb Ascii.eqb Bool.eqb]. unfold marker_path_by_spec.
  assert (H1 : filepath.Join [e; ""] = e).
  { unfold filepath.Join. rewrite Hne.
    change (strings.Join [e; ""] (String filepath.Separator ""))
      with (e ++ "/" ++ "").
    change ("/" ++ "") with "/". now apply Clean_plain_trailing_separator. }
  assert (H2 : filepath.Join [""; e] = e).
  { cbn [filepath.Join String.eqb]. rewrite Hne.
    change (strings.Join [e] (String filepath.Separator ""))
      with (strings.Join [e] "/").
    apply Clean_plain_path; [discriminate | simpl; now rewrite He]. }
  rewrite H1, H2. split; reflexivity.
Qed.

Lemma GetMarkerPath_empty_element_witness :
  result_of (GetMarkerPath "k8s-release-dev" "" "cross") []
  = Returned "k8s-release-dev-cross" /\
  result_of (GetMarkerPath "" "k8s-release-dev" "cross") []
  = Returned "k8s-release-dev-cross".
Proof.
  exact (GetMarkerPath_empty_element "k8s-release-dev" "cross" [] eq_refl).
Defined.

Lemma no_separator_Forall (s : string) :
  no_separator s = true ->
  Forall (fun c => filepath.IsPathSeparator c = false) (list_ascii_of_string s).
Proof.
  unfold no_separator. intros H. apply Forall_forall. intros c Hin.
  apply negb_true_iff. revert c Hin. now apply forallb_forall.
Qed.

Lemma hyphenated_no_double_separator (path suffix : string) :
  NoDoubleSeparator (list_ascii_of_string path) ->
  no_separator suffix = true ->
  NoDoubleSeparator (list_ascii_of_string (path ++ "-" ++ suffix)).
Proof.
  intros Hpath Hsuffix.
  rewrite <- (rev_involutive (list_ascii_of_string (path ++ "-" ++ suffix))).
  apply NoDoubleSeparator_rev.
  rewrite list_ascii_of_append. cbn [append list_ascii_of_string].
  rewrite rev_app_distr. cbn [List.rev]. rewrite <- app_assoc.
  apply NoDoubleSeparator_app_plain.
  - apply Forall_rev. now apply no_separator_Forall.
  - apply NoDoubleSeparator_app_plain; [now repeat constructor|].
    now apply NoDoubleSeparator_rev.
Qed.

(** X16. Whenever the fast flag is set, a version is given or the suffix
    holds no separator, the release path is a cleaned path: it nowhere
    has two separators in a row, whatever the bucket and build type
    contain. *)
Theorem GetReleasePath_no_double_separator
    (bucket buildType gcsSuffix version : string) (fast : bool) (tr : trace) :
  fast || negb (version =? "")%string || no_separator gcsSuffix = true ->
  exists path : string,
    result_of (GetReleasePath bucket buildType gcsSuffix version fast) tr
    = Returned path /\
    NoDoubleSeparator (list_ascii_of_string path).
Proof.
  intros H. eexists. split; [apply GetReleasePath_result|].
  unfold with_version, with_fast, marker_path_by_spec.
  destruct (version =? "")%string; [|apply Join_no_double_separator].
  destruct fast; [apply Join_no_double_separator|].
  cbn [negb orb] in H.
  destruct (gcsSuffix =? "")%string.
  - apply Join_no_double_separator.
  - apply hyphenated_no_double_separator;
      [apply Join_no_double_separator | assumption].
Qed.

Lemma GetReleasePath_no_double_separator_witness :
  exists path : string,
    result_of (GetReleasePath "gs://bucket//" "ci//" "a//b" "v1.19.0" false) []
    = Returned path /\
    NoDoubleSeparator (list_ascii_of_string path).
Proof.
  exact (GetReleasePath_no_double_separator "gs://bucket//" "ci//" "a//b"
           "v1.19.0" false [] eq_refl).
Defined.

(** ** The errors of the copy operations *)

Lemma bucketCopy_error (env : Env) (src dst : string)
    (opts : option Options) (tr : trace) :
  when_returned is_wrapped_copy_error (bucketCopy env src dst opts tr) = true.
Proof.
  destruct opts as [[[c|] [r|] [n|] a]|];
    try (rewrite bucketCopy_run; unfold when_returned; cbn [fst];
         match goal with
         | |- context [gsutil_answer env ?t ?x] =>
             destruct (gsutil_answer env t x); reflexivity
         end);
    try reflexivity.
  - destruct c, r; reflexivity.
  - destruct c; reflexivity.
  - destruct c; reflexivity.
Qed.

(** X17. Whatever the options, the file system and the tool, an error
    returned by a copy operation is the tool's error wrapped with
    "gcs copy" or, for the local-to-remote copy alone, the error
    "source directory does not exist": the error of [os.Stat] itself is
    never handed back, and the tool's error never comes back bare. *)
Theorem copy_errors (env : Env) (src dst : string) (opts : option Options)
    (tr : trace) :
  when_returned is_copy_error (CopyToGCS env src dst opts tr) = true /\
  when_returned is_wrapped_copy_error (CopyToLocal env src dst opts tr)
  = true /\
  when_returned is_wrapped_copy_error (CopyBucketToBucket env src dst opts tr)
  = true.
Proof.
  split; [|split].
  - set (tr1 := (tr ++ [Logged InfoLevel
                   ("Copying " ++ src ++ " to GCS (" ++ dst ++ ")")])%list).
    destruct (stat_answer env tr1 src) as [e|] eqn:Hstat.
    + rewrite (CopyToGCS_missing_run env src dst opts tr e Hstat).
      destruct opts as [[c r n [[]|]]|]; reflexivity.
    + rewrite (CopyToGCS_present_run env src dst opts tr Hstat).
      match goal with
      | |- context [bucketCopy env ?x ?y opts ?t] =>
          pose proof (bucketCopy_error env x y opts t) as H;
          unfold when_returned in *;
          destruct (fst (bucketCopy env x y opts t)) as [[[| |]|]|]
      end; (discriminate || assumption || reflexivity).
  - unfold CopyToLocal, bind at 1, logrus_Info, emit.
    apply bucketCopy_error.
  - unfold CopyBucketToBucket, bind at 1, logrus_Info, emit.
    apply bucketCopy_error.
Qed.
